(** * Tic Tac Toe frontend: the rules engine and the session controller of
    [src/tic_tac_toe_frontend/src/App.js], embedded in Rocq.

    The React component [App] keeps seven pieces of state ([board],
    [xIsNext], [gameMode], [isGameActive], [status], [winnerLine],
    [aiThinking]) and one pending [setTimeout] callback.  Its functions are
    translated one by one: [calculateWinner], [handleRestart],
    [handleClick], [findBestMove], [handleModeChange] and the body of the
    [useEffect] that depends on [[board, xIsNext, gameMode]]. *)

From stdpp Require Import base list strings.
From Stdlib Require Import Lia.

(** ** Values stored in the board array *)

(** The two marks, the strings ['X'] and ['O'] of the source. *)
Inductive mark := MarkX | MarkO.

(** What reading [squares[i]] can give: [null] (an empty cell), a mark, or
    [undefined] (an index past the end of the array, or a hole left by a
    write past the end). *)
Inductive cell := Null | Undefined | Mark (m : mark).

#[global] Instance mark_eq_dec : EqDecision mark.
Proof. solve_decision. Defined.

#[global] Instance cell_eq_dec : EqDecision cell.
Proof. solve_decision. Defined.

Abbreviation Board := (list cell).

(** [squares[i]]: out of range JavaScript reads [undefined]. *)
Definition get (squares : Board) (i : nat) : cell :=
  default Undefined (squares !! i).

(** [squares[i] = v]: in range the slot is overwritten; out of range
    JavaScript extends the array, leaving holes that read [undefined]. *)
Definition put (squares : Board) (i : nat) (v : cell) : Board :=
  if decide (i < length squares) then <[i:=v]> squares
  else squares ++ replicate (i - length squares) Undefined ++ [v].

(** JavaScript truthiness of a cell: [null] and [undefined] are falsy, the
    non-empty strings ['X'] and ['O'] are truthy. *)
Definition truthy (c : cell) : bool :=
  match c with Mark _ => true | _ => false end.

(** [Array(9).fill(null)] *)
Definition emptyBoard : Board := replicate 9 Null.

(** [squares.includes(null)]: holes compare as [undefined], never as
    [null]. *)
Definition includesNull (squares : Board) : bool :=
  bool_decide (Null ∈ squares).

(** A board as the data model has it: nine cells, each [null] or a mark. *)
Definition wfBoard (b : Board) : Prop :=
  length b = 9 ∧ Forall (λ c, c ≠ Undefined) b.

(** ** Board Evaluator: [calculateWinner] *)

Definition rows : list (nat * nat * nat) := [(0,1,2); (3,4,5); (6,7,8)].
Definition cols : list (nat * nat * nat) := [(0,3,6); (1,4,7); (2,5,8)].
Definition diagonals : list (nat * nat * nat) := [(0,4,8); (2,4,6)].

(** The constant array [lines] of [calculateWinner], in source order. *)
Definition lines : list (nat * nat * nat) :=
  [(0,1,2); (3,4,5); (6,7,8);
   (0,3,6); (1,4,7); (2,5,8);
   (0,4,8); (2,4,6)].

(** The [winner] field of a result: a mark, or the string ['draw']. *)
Inductive winnerTag := Won (m : mark) | Draw.

#[global] Instance winnerTag_eq_dec : EqDecision winnerTag.
Proof. solve_decision. Defined.

(** The object [{ winner, line }] that [calculateWinner] returns. *)
Record result := Result { winner : winnerTag; line : list nat }.

(** The [for (let [a, b, c] of lines)] loop with its early [return].  The
    guard is [squares[a] && squares[a] === squares[b] && squares[a] ===
    squares[c]]: the first conjunct holds exactly when [squares[a]] is a
    mark, which is then the [winner] of the returned object. *)
Fixpoint scanLines (squares : Board) (ls : list (nat * nat * nat))
  : option result :=
  match ls with
  | [] => None
  | (a, b, c) :: rest =>
      match get squares a with
      | Mark m =>
          if bool_decide (get squares a = get squares b)
             && bool_decide (get squares a = get squares c)
          then Some (Result (Won m) [a; b; c])
          else scanLines squares rest
      | _ => scanLines squares rest
      end
  end.

Definition calculateWinner (squares : Board) : option result :=
  match scanLines squares lines with
  | Some r => Some r
  | None =>
      if negb (includesNull squares) then Some (Result Draw [])
      else None
  end.

(** ** Move Selector: [findBestMove] *)

(** A [for] loop over candidate indices that returns the first index
    passing [test]; [None] when the loop falls through. *)
Fixpoint firstIndex (test : nat → bool) (candidates : list nat) : option nat :=
  match candidates with
  | [] => None
  | i :: rest => if test i then Some i else firstIndex test rest
  end.

(** [calculateWinner(newB)?.winner === m] *)
Definition winnerIs (r : option result) (m : mark) : bool :=
  match r with
  | Some r => bool_decide (winner r = Won m)
  | None => false
  end.

(** The body of the first two loops at index [i], for the mark [m] that is
    tentatively placed: copy the board, and if the cell is falsy write [m]
    there and ask the evaluator. *)
Definition tryMark (b : Board) (m : mark) (i : nat) : bool :=
  let newB := b in
  if negb (truthy (get newB i)) then
    let newB := put newB i (Mark m) in
    winnerIs (calculateWinner newB) m
  else false.

Definition findBestMove (b : Board) : option nat :=
  (* First, win if possible *)
  match firstIndex (tryMark b MarkO) (seq 0 9) with
  | Some i => Some i
  | None =>
  (* Block X win if possible *)
  match firstIndex (tryMark b MarkX) (seq 0 9) with
  | Some i => Some i
  | None =>
  (* Take center *)
  if negb (truthy (get b 4)) then Some 4 else
  (* Take corner *)
  match firstIndex (λ idx, negb (truthy (get b idx))) [0; 2; 6; 8] with
  | Some idx => Some idx
  | None =>
  (* Else pick first free *)
  firstIndex (λ i, negb (truthy (get b i))) (seq 0 9)
  end end end.

(** ** Session Controller: the state of [App] and its handlers *)

Inductive mode := PVP | AI.

#[global] Instance mode_eq_dec : EqDecision mode.
Proof. solve_decision. Defined.

(** The seven [useState] cells of [App], as one render sees them. *)
Record State := mkState {
  board : Board;
  xIsNext : bool;
  gameMode : mode;
  isGameActive : bool;
  status : string;
  winnerLine : list nat;
  aiThinking : bool
}.

(** A call of one of the seven setters.  A handler does not change the
    state it closes over: it queues setter calls, which React applies, in
    order, for the next render. *)
Inductive action :=
  | SetBoard (b : Board)
  | SetXIsNext (v : bool)
  | SetGameMode (v : mode)
  | SetIsGameActive (v : bool)
  | SetStatus (v : string)
  | SetWinnerLine (v : list nat)
  | SetAiThinking (v : bool).

Definition applyAction (r : State) (a : action) : State :=
  match a with
  | SetBoard b =>
      mkState b (xIsNext r) (gameMode r) (isGameActive r) (status r)
        (winnerLine r) (aiThinking r)
  | SetXIsNext v =>
      mkState (board r) v (gameMode r) (isGameActive r) (status r)
        (winnerLine r) (aiThinking r)
  | SetGameMode v =>
      mkState (board r) (xIsNext r) v (isGameActive r) (status r)
        (winnerLine r) (aiThinking r)
  | SetIsGameActive v =>
      mkState (board r) (xIsNext r) (gameMode r) v (status r)
        (winnerLine r) (aiThinking r)
  | SetStatus v =>
      mkState (board r) (xIsNext r) (gameMode r) (isGameActive r) v
        (winnerLine r) (aiThinking r)
  | SetWinnerLine v =>
      mkState (board r) (xIsNext r) (gameMode r) (isGameActive r) (status r)
        v (aiThinking r)
  | SetAiThinking v =>
      mkState (board r) (xIsNext r) (gameMode r) (isGameActive r) (status r)
        (winnerLine r) v
  end.

Definition applyAll (r : State) (acts : list action) : State :=
  foldl applyAction r acts.

(** [handleRestart]: six setter calls; [setGameMode] is not among them. *)
Definition handleRestart : list action :=
  [ SetBoard emptyBoard;
    SetXIsNext true;
    SetIsGameActive true;
    SetWinnerLine [];
    SetStatus "";
    SetAiThinking false ].

(** [handleClick(i)], as closed over the render [r]. *)
Definition handleClick (r : State) (i : nat) : list action :=
  if negb (isGameActive r)
     || truthy (get (board r) i)
     || (bool_decide (gameMode r = AI) && negb (xIsNext r))
  then []
  else
    let newBoard := board r in
    let newBoard :=
      put newBoard i (Mark (if xIsNext r then MarkX else MarkO)) in
    [ SetBoard newBoard; SetXIsNext (negb (xIsNext r)) ].

(** [handleModeChange(e)] with [e.target.value = v]. *)
Definition handleModeChange (v : mode) : list action :=
  SetGameMode v :: handleRestart.

(** The callback given to [setTimeout] by the effect of render [r]: it
    closes over [r]'s [board] and over [r]'s [handleClick]. *)
Definition timeoutCallback (r : State) : list action :=
  match findBestMove (board r) with
  | Some move => handleClick r move
  | None => []
  end ++ [ SetAiThinking false ].

(** The body of the [useEffect] with dependencies
    [[board, xIsNext, gameMode]], run for render [r]: the setter calls it
    makes, and whether it schedules the 550 ms timeout (whose callback is
    then [timeoutCallback r], and whose cleanup is [clearTimeout]). *)
Definition effect (r : State) : list action * bool :=
  let result := calculateWinner (board r) in
  let acts :=
    match result with
    | Some res =>
        [ SetIsGameActive false;
          SetWinnerLine (line res);
          match winner res with
          | Draw => SetStatus "It's a draw!"
          | Won w =>
              SetStatus
                ("Winner: " +:+
                 match w with
                 | MarkX => "Player 1"
                 | MarkO => match gameMode r with
                            | PVP => "Player 2"
                            | AI => "AI"
                            end
                 end)
          end ]
    | None =>
        SetWinnerLine [] ::
        match gameMode r with
        | AI =>
            if xIsNext r then [ SetStatus "Your turn (X)" ]
            else [ SetStatus "AI thinking..."; SetAiThinking true ]
        | PVP =>
            [ SetStatus
                ("Turn: Player " +:+ if xIsNext r then "1 (X)" else "2 (O)") ]
        end
    end in
  if bool_decide (gameMode r = AI) && negb (xIsNext r)
     && bool_decide (result = None)
  then (acts ++ [ SetAiThinking true ], true)
  else (acts, false).

(** The component between two events: the state of the latest render, and
    the pending timeout, if any, named by the render whose effect
    scheduled it (the render its callback closes over). *)
Record Session := mkSession {
  state : State;
  timeout : option State
}.

Definition isSetBoard (a : action) : bool :=
  match a with SetBoard _ => true | _ => false end.

(** Whether a batch of setter calls changes a dependency of the effect.
    React compares dependencies with [Object.is]: every [setBoard] in the
    program passes a freshly allocated array ([Array(9).fill(null)] or
    [board.slice()]), so the [board] dependency changes whenever
    [setBoard] is called, also when the contents are the same. *)
Definition depsChanged (old : State) (acts : list action) (new : State) : bool :=
  existsb isSetBoard acts
  || negb (bool_decide (xIsNext old = xIsNext new))
  || negb (bool_decide (gameMode old = gameMode new)).

(** React's commit after a handler ran: apply the queued setter calls; if a
    dependency changed, run the previous effect's cleanup (which clears the
    pending timeout) and then the effect of the new render.  The effect's
    own setter calls touch no dependency (lemma [effect_keeps_deps]), so
    the render they cause runs no effect. *)
Definition commit (s : Session) (acts : list action) : Session :=
  let new := applyAll (state s) acts in
  if depsChanged (state s) acts new then
    let '(acts', scheduled) := effect new in
    mkSession (applyAll new acts') (if scheduled then Some new else None)
  else mkSession new (timeout s).

(** The initial [useState] values. *)
Definition initialState : State :=
  mkState emptyBoard true PVP true "" [] false.

(** Mounting the component: the first render, then its effect. *)
Definition mount : Session :=
  let '(acts, scheduled) := effect initialState in
  mkSession (applyAll initialState acts)
    (if scheduled then Some initialState else None).

(** What can happen to a mounted component. *)
Inductive event :=
  | Click (i : nat)
  | Restart
  | ModeChange (v : mode)
  | TimeoutFires.

(** Handlers attached to the DOM are those of the latest render; the
    timeout callback is the one of the render that scheduled it. *)
Definition step (s : Session) (e : event) : Session :=
  match e with
  | Click i => commit s (handleClick (state s) i)
  | Restart => commit s handleRestart
  | ModeChange v => commit s (handleModeChange v)
  | TimeoutFires =>
      match timeout s with
      | Some r => commit (mkSession (state s) None) (timeoutCallback r)
      | None => s
      end
  end.

(** [disabled={!isGameActive && winnerLine.length > 0}] on the mode
    [<select>]. *)
Definition modeSelectDisabled (r : State) : bool :=
  negb (isGameActive r) && bool_decide (0 < length (winnerLine r)).

(** The events the rendered page can produce: a click on one of the
    squares that [board.map] rendered, the restart button, a change of the
    mode selector unless it is disabled, and the pending timeout. *)
Definition enabled (s : Session) (e : event) : Prop :=
  match e with
  | Click i => get (board (state s)) i ≠ Undefined
  | Restart => True
  | ModeChange _ => modeSelectDisabled (state s) = false
  | TimeoutFires => is_Some (timeout s)
  end.

Inductive reachable : Session → Prop :=
  | reachable_mount : reachable mount
  | reachable_step s e : reachable s → enabled s e → reachable (step s e).

Definition run (s : Session) (es : list event) : Session :=
  foldl step s es.

(** Every event of [es] is enabled when its turn comes. *)
Fixpoint enabledAll (s : Session) (es : list event) : Prop :=
  match es with
  | [] => True
  | e :: es => enabled s e ∧ enabledAll (step s e) es
  end.

(** Discharges [enabledAll] on a concrete list of events. *)
Ltac enabled_events :=
  cbn [enabledAll]; repeat split; vm_compute; discriminate.

(** The number of cells of [b] that hold the mark [m]. *)
Definition countMark (m : mark) (b : Board) : nat :=
  length (filter (λ c, c = Mark m) b).

#[global] Arguments get : simpl never.
#[global] Arguments put : simpl never.

(** ** Vocabulary of the statements *)

(** The three indices of a line, as the [line] field lists them. *)
Definition lineIndices (l : nat * nat * nat) : list nat :=
  let '(a, b, c) := l in [a; b; c].

(** All three cells of line [l] hold the mark [m]. *)
Definition complete (squares : Board) (m : mark) (l : nat * nat * nat) : Prop :=
  let '(a, b, c) := l in
  get squares a = Mark m ∧ get squares b = Mark m ∧ get squares c = Mark m.

(** No line of [ls] is complete, for either mark. *)
Definition noneComplete (squares : Board) (ls : list (nat * nat * nat)) : Prop :=
  ∀ l m, l ∈ ls → ¬ complete squares m l.

(** Cell [i] is empty as the program tests it ([!b[i]]). *)
Definition isEmpty (b : Board) (i : nat) : Prop :=
  truthy (get b i) = false.

(** Cell [i] is empty and the evaluator reports a win for [m] on the board
    where [m] has been placed at [i]. *)
Definition winsFor (b : Board) (m : mark) (i : nat) : Prop :=
  isEmpty b i
  ∧ ∃ l, calculateWinner (put b i (Mark m)) = Some (Result (Won m) l).

(** [i] is the first element of [order] that satisfies [P]. *)
Definition firstAmong (P : nat → Prop) (order : list nat) (i : nat) : Prop :=
  ∃ pre post, order = pre ++ i :: post ∧ P i ∧ ∀ j, j ∈ pre → ¬ P j.

(** [i] is the lowest of the indices 0..8 that satisfies [P]. *)
Definition lowest (P : nat → Prop) (i : nat) : Prop :=
  i < 9 ∧ P i ∧ ∀ j, j < i → ¬ P j.

(** No index 0..8 satisfies [P]. *)
Definition nowhere (P : nat → Prop) : Prop :=
  ∀ j, j < 9 → ¬ P j.

(** The three conditions under which [handleClick] returns at once: the
    game is not active, the cell is occupied, or it is the computer's turn
    in computer mode. *)
Definition rejects (r : State) (i : nat) : Prop :=
  isGameActive r = false
  ∨ truthy (get (board r) i) = true
  ∨ (gameMode r = AI ∧ xIsNext r = false).

#[global] Instance rejects_dec r i : Decision (rejects r i).
Proof. unfold rejects. apply _. Defined.

(** The session right after a reset: empty board, X to move, game active,
    no timeout pending. *)
Definition isReset (s : Session) : Prop :=
  board (state s) = emptyBoard
  ∧ xIsNext (state s) = true
  ∧ isGameActive (state s) = true
  ∧ timeout s = None.

(** What every reachable session satisfies. *)
Record invariant (s : Session) : Prop := {
  inv_wf : wfBoard (board (state s));
  inv_count :
    countMark MarkX (board (state s))
    = countMark MarkO (board (state s)) + (if xIsNext (state s) then 0 else 1);
  inv_ai :
    gameMode (state s) = AI → countMark MarkO (board (state s)) = 0;
  inv_result :
    match calculateWinner (board (state s)) with
    | Some res =>
        isGameActive (state s) = false ∧ winnerLine (state s) = line res
    | None => isGameActive (state s) = true ∧ winnerLine (state s) = []
    end;
  inv_timeout :
    ∀ r, timeout s = Some r →
         gameMode r = AI ∧ xIsNext r = false
         ∧ board r = board (state s)
         ∧ calculateWinner (board r) = None
}.

(** ** Rendering: [Square] and [renderBoard] *)

(** The text of a mark, as the template literals print it. *)
Definition markText (m : mark) : string :=
  match m with MarkX => "X" | MarkO => "O" end.

(** The [<button>] element that [Square] returns: its class, its
    [aria-label], its click handler (named by the event it raises) and the
    value it shows. *)
Record button := mkButton {
  className : string;
  onClick : event;
  ariaLabel : string;
  children : cell
}.

(** [Square({ value, onClick, highlight })] *)
Definition Square (value : cell) (onClick : event) (highlight : bool)
  : button :=
  mkButton
    ("ttt-square" +:+ (if highlight then " highlight" else ""))
    onClick
    (match value with
     | Mark m => "Square " +:+ markText m
     | _ => "Empty Square"
     end)
    value.

(** [renderBoard()]: [board.map] calls its callback on every element of the
    array and skips the holes (which stay holes in the result, here
    [None]); the handler of square [idx] is [() => handleClick(idx)], and it
    is highlighted when [winnerLine.includes(idx)]. *)
Definition renderBoard (r : State) : list (option button) :=
  imap
    (λ idx val,
       match val with
       | Undefined => None
       | _ => Some (Square val (Click idx)
                      (bool_decide (idx ∈ winnerLine r)))
       end)
    (board r).

(** ** Vocabulary of the statements about the view *)

(** The status text that the effect of a render stores, given what the
    evaluator says of the render's board, its mode and its turn. *)
Definition statusOf (res : option result) (m : mode) (xNext : bool) : string :=
  match res with
  | Some (Result Draw _) => "It's a draw!"
  | Some (Result (Won MarkX) _) => "Winner: Player 1"
  | Some (Result (Won MarkO) _) =>
      match m with PVP => "Winner: Player 2" | AI => "Winner: AI" end
  | None =>
      match m, xNext with
      | AI, true => "Your turn (X)"
      | AI, false => "AI thinking..."
      | PVP, true => "Turn: Player 1 (X)"
      | PVP, false => "Turn: Player 2 (O)"
      end
  end.

(** Whether a setter call is [setGameMode]. *)
Definition isSetGameMode (a : action) : bool :=
  match a with SetGameMode _ => true | _ => false end.

(** The mark that moved last, read off the turn indicator. *)
Definition lastMover (xNext : bool) : mark :=
  if xNext then MarkO else MarkX.

(** What every reachable session satisfies, besides [invariant], about the
    status line, the AI-thinking flag and the winner. *)
Record viewInvariant (s : Session) : Prop := {
  view_status :
    status (state s)
    = statusOf (calculateWinner (board (state s))) (gameMode (state s))
        (xIsNext (state s));
  view_thinking : aiThinking (state s) = true ↔ is_Some (timeout s);
  view_pending :
    is_Some (timeout s) →
    gameMode (state s) = AI ∧ xIsNext (state s) = false;
  view_last :
    ∀ m l, calculateWinner (board (state s)) = Some (Result (Won m) l) →
           m = lastMover (xIsNext (state s))
}.

(** Boards are written row by row with these three letters. *)
Module BoardNotation.
Abbreviation x := (Mark MarkX).
Abbreviation o := (Mark MarkO).
Abbreviation __ := Null.
End BoardNotation.

(** * Properties *)

(** ** The scan of the lines *)

Import BoardNotation.

Section ScanLines.

Lemma scanLines_cons_complete squares m a b c rest :
  complete squares m (a, b, c) →
  scanLines squares ((a, b, c) :: rest) = Some (Result (Won m) [a; b; c]).
Proof.
  intros (Ha & Hb & Hc). simpl. rewrite Ha, Hb, Hc.
  by rewrite !bool_decide_eq_true_2.
Qed.

Lemma scanLines_cons_incomplete squares l rest :
  (∀ m, ¬ complete squares m l) →
  scanLines squares (l :: rest) = scanLines squares rest.
Proof.
  destruct l as [[a b] c]. intros Hno. simpl.
  destruct (get squares a) as [| |m] eqn:Ha; try done.
  destruct (bool_decide (Mark m = get squares b)) eqn:Hb; [|done].
  destruct (bool_decide (Mark m = get squares c)) eqn:Hc; [|done].
  apply bool_decide_eq_true_1 in Hb, Hc.
  destruct (Hno m). unfold complete. by rewrite Ha.
Qed.

Lemma scanLines_first squares pre l post m :
  noneComplete squares pre →
  complete squares m l →
  scanLines squares (pre ++ l :: post) = Some (Result (Won m) (lineIndices l)).
Proof.
  intros Hpre Hl. induction pre as [|p pre IH]; simpl app.
  - destruct l as [[a b] c]. by apply scanLines_cons_complete.
  - rewrite scanLines_cons_incomplete.
    + apply IH. intros l' m' Hin. apply Hpre. by right.
    + intros m'. apply Hpre. by left.
Qed.

Lemma scanLines_none squares ls :
  noneComplete squares ls → scanLines squares ls = None.
Proof.
  intros Hno. induction ls as [|l ls IH]; [done|].
  rewrite scanLines_cons_incomplete.
  - apply IH. intros l' m' Hin. apply Hno. by right.
  - intros m'. apply Hno. by left.
Qed.

(** Every list of lines either has a first complete line or none. *)
Lemma first_complete_or_none squares ls :
  (∃ pre l post m,
      ls = pre ++ l :: post ∧ noneComplete squares pre ∧ complete squares m l)
  ∨ noneComplete squares ls.
Proof.
  induction ls as [|[[a b] c] ls IH].
  - right. intros l m Hin. by apply elem_of_nil in Hin.
  - destruct (get squares a) as [| |m] eqn:Ha.
    3: destruct (decide (get squares b = Mark m)) as [Hb|Hb].
    3: destruct (decide (get squares c = Mark m)) as [Hc|Hc].
    3: { left. exists [], (a, b, c), ls, m. repeat split; try done.
         intros l' m' Hin. by apply elem_of_nil in Hin. }
    all: destruct IH as [(pre & l & post & m' & -> & Hpre & Hl)|Hno];
      [ left; exists ((a, b, c) :: pre), l, post, m'; repeat split; try done;
        intros l' m'' [->|Hin]%elem_of_cons; [|by apply Hpre];
        intros (Ha' & Hb' & Hc'); congruence
      | right; intros l' m'' [->|Hin]%elem_of_cons; [|by apply Hno];
        intros (Ha' & Hb' & Hc'); congruence ].
Qed.

End ScanLines.

(** C2. [calculateWinner] scans [lines], which lists the rows, then the
    columns, then the diagonals.  If some line is complete it returns the
    mark and the indices of the first complete line in that order;
    otherwise a draw with an empty line when [null] does not occur in the
    array; otherwise [null] (here [None]).  One of the three cases applies
    to every array, so the function is total; it only reads its argument. *)
Theorem calculateWinner_spec (squares : Board) :
  lines = rows ++ cols ++ diagonals
  ∧ (∀ pre l post m,
        lines = pre ++ l :: post →
        noneComplete squares pre →
        complete squares m l →
        calculateWinner squares = Some (Result (Won m) (lineIndices l)))
  ∧ (noneComplete squares lines →
     Null ∉ squares →
     calculateWinner squares = Some (Result Draw []))
  ∧ (noneComplete squares lines →
     Null ∈ squares →
     calculateWinner squares = None)
  ∧ ((∃ pre l post m,
         lines = pre ++ l :: post ∧ noneComplete squares pre
         ∧ complete squares m l)
     ∨ noneComplete squares lines).
Proof.
  split; [done|]. unfold calculateWinner, includesNull.
  split; [|split; [|split]].
  - intros pre l post m -> Hpre Hl. by rewrite (scanLines_first _ _ _ _ m).
  - intros Hno Hfull. rewrite scanLines_none by done.
    by rewrite bool_decide_eq_false_2.
  - intros Hno Hnull. rewrite scanLines_none by done.
    by rewrite bool_decide_eq_true_2.
  - apply first_complete_or_none.
Qed.

(** The evaluator on the spec's sample boards. *)
Example calculateWinner_row : calculateWinner [x;x;x; __;o;__; __;o;__]
                              = Some (Result (Won MarkX) [0; 1; 2]).
Proof. reflexivity. Qed.

Example calculateWinner_draw : calculateWinner [x;o;x; o;x;o; o;x;o]
                               = Some (Result Draw []).
Proof. reflexivity. Qed.

Example calculateWinner_open : calculateWinner [x;o;x; o;x;o; o;x;__] = None.
Proof. reflexivity. Qed.

(** ** Reading and writing cells *)

Lemma get_put (b : Board) i j v :
  get (put b i v) j = if decide (j = i) then v else get b j.
Proof.
  unfold get, put. destruct (decide (i < length b)) as [Hlt|Hge]; cbv iota.
  - destruct (decide (j = i)) as [->|Hne].
    + by rewrite list_lookup_insert_eq.
    + by rewrite list_lookup_insert_ne.
  - destruct (decide (j = i)) as [->|Hne].
    + rewrite lookup_app_r by lia.
      rewrite lookup_app_r by (rewrite length_replicate; lia).
      rewrite length_replicate.
      by replace (i - length b - (i - length b)) with 0 by lia.
    + destruct (decide (j < length b)).
      * by rewrite lookup_app_l.
      * rewrite lookup_app_r, (lookup_ge_None_2 b j) by lia. simpl.
        destruct (decide (j < i)).
        -- rewrite lookup_app_l by (rewrite length_replicate; lia).
           by rewrite lookup_replicate_2 by lia.
        -- rewrite lookup_ge_None_2; [done|].
           rewrite length_app, length_replicate. simpl. lia.
Qed.

Lemma get_lookup (b : Board) i c :
  b !! i = Some c → get b i = c.
Proof. unfold get. by intros ->. Qed.

Lemma wfBoard_get (b : Board) i :
  wfBoard b → i < 9 → b !! i = Some (get b i) ∧ get b i ≠ Undefined.
Proof.
  intros [Hlen Hall] Hi.
  destruct (lookup_lt_is_Some_2 b i) as [c Hc]; [lia|].
  rewrite (get_lookup _ _ _ Hc). split; [done|].
  by eapply (Forall_lookup_1 _ _ _ _ Hall).
Qed.

(** ** Loops over candidate indices *)

Section FirstIndex.
Context (test : nat → bool) (P : nat → Prop).
Hypothesis test_spec : ∀ i, test i = true ↔ P i.

Lemma firstIndex_first order i :
  firstAmong P order i → firstIndex test order = Some i.
Proof.
  intros (pre & post & -> & Hi & Hpre).
  induction pre as [|p pre IH]; simpl.
  - by rewrite (proj2 (test_spec i) Hi).
  - destruct (test p) eqn:Hp.
    + destruct (Hpre p); [by left|]. by apply test_spec.
    + apply IH. intros j Hj. apply Hpre. by right.
Qed.

Lemma firstIndex_none order :
  (∀ j, j ∈ order → ¬ P j) → firstIndex test order = None.
Proof.
  induction order as [|p order IH]; intros Hno; simpl; [done|].
  destruct (test p) eqn:Hp.
  - destruct (Hno p); [by left|]. by apply test_spec.
  - apply IH. intros j Hj. apply Hno. by right.
Qed.

Lemma firstIndex_Some_inv order i :
  firstIndex test order = Some i → i ∈ order ∧ P i.
Proof.
  induction order as [|p order IH]; simpl; [done|].
  destruct (test p) eqn:Hp.
  - intros [= ->]. split; [by left|]. by apply test_spec.
  - intros [Hin HP]%IH. split; [by right|done].
Qed.

Lemma firstIndex_None_inv order :
  firstIndex test order = None → ∀ j, j ∈ order → ¬ P j.
Proof.
  induction order as [|p order IH]; simpl.
  - intros _ j Hj. by apply elem_of_nil in Hj.
  - destruct (test p) eqn:Hp; [done|].
    intros Hnone j [->|Hj]%elem_of_cons.
    + rewrite <- test_spec. by rewrite Hp.
    + by apply IH.
Qed.

Lemma lowest_firstAmong i : lowest P i → firstAmong P (seq 0 9) i.
Proof.
  intros (Hi & HP & Hlow).
  exists (seq 0 i), (seq (S i) (9 - S i)). split; [|split; [done|]].
  - replace 9 with (i + S (9 - S i)) at 1 by lia.
    by rewrite seq_app.
  - intros j Hj%elem_of_seq. apply Hlow. lia.
Qed.

Lemma firstIndex_seq_Some a n k :
  firstIndex test (seq a n) = Some k →
  a ≤ k < a + n ∧ P k ∧ ∀ j, a ≤ j < k → ¬ P j.
Proof.
  revert a. induction n as [|n IH]; intros a; simpl; [done|].
  destruct (test a) eqn:Ha.
  - intros [= <-]. split; [lia|]. split; [by apply test_spec|]. lia.
  - intros (Hk & HP & Hlow)%IH. split; [lia|]. split; [done|].
    intros j Hj. destruct (decide (j = a)) as [->|Hne].
    + rewrite <- test_spec. by rewrite Ha.
    + apply Hlow. lia.
Qed.

Lemma firstIndex_lowest_inv k :
  firstIndex test (seq 0 9) = Some k → lowest P k.
Proof.
  intros (Hk & HP & Hlow)%firstIndex_seq_Some.
  split; [lia|]. split; [done|]. intros j Hj. apply Hlow. lia.
Qed.

Lemma firstIndex_lowest i : lowest P i → firstIndex test (seq 0 9) = Some i.
Proof. intros H. by apply firstIndex_first, lowest_firstAmong. Qed.

Lemma firstIndex_nowhere : nowhere P → firstIndex test (seq 0 9) = None.
Proof.
  intros Hno. apply firstIndex_none. intros j Hj%elem_of_seq.
  apply Hno. lia.
Qed.

End FirstIndex.

Lemma firstIndex_ext (t1 t2 : nat → bool) order :
  (∀ i, i ∈ order → t1 i = t2 i) →
  firstIndex t1 order = firstIndex t2 order.
Proof.
  induction order as [|p order IH]; intros Heq; simpl; [done|].
  rewrite (Heq p) by by left.
  rewrite IH; [done|]. intros i Hi. apply Heq. by right.
Qed.

(** ** The tests of [findBestMove] *)

Lemma winnerIs_true r m :
  winnerIs r m = true ↔ ∃ l, r = Some (Result (Won m) l).
Proof.
  destruct r as [[w l]|]; simpl.
  - rewrite bool_decide_eq_true. split.
    + intros ->. by exists l.
    + by intros (l' & [= -> _]).
  - split; [done|]. by intros (l & ?).
Qed.

Lemma tryMark_spec b m i : tryMark b m i = true ↔ winsFor b m i.
Proof.
  unfold tryMark, winsFor, isEmpty.
  destruct (truthy (get b i)); simpl.
  - split; [done|]. by intros [? _].
  - rewrite winnerIs_true. split; [by intros ?|by intros [_ ?]].
Qed.

Lemma isEmpty_spec b i : negb (truthy (get b i)) = true ↔ isEmpty b i.
Proof. unfold isEmpty. by destruct (truthy (get b i)). Qed.

(** ** Winning placements complete a line *)

Lemma scanLines_Some_inv squares ls r :
  scanLines squares ls = Some r →
  ∃ t m, t ∈ ls ∧ complete squares m t ∧ r = Result (Won m) (lineIndices t).
Proof.
  induction ls as [|[[a b] c] ls IH]; cbn [scanLines]; [done|].
  assert (Hrest : scanLines squares ls = Some r →
    ∃ t m, t ∈ (a, b, c) :: ls ∧ complete squares m t
           ∧ r = Result (Won m) (lineIndices t)).
  { intros (t & m & Hin & Hc & ->)%IH. exists t, m. split; [by right|done]. }
  destruct (get squares a) as [| |m] eqn:Ha; try done.
  destruct (bool_decide (Mark m = get squares b)) eqn:Hb; [|done].
  destruct (bool_decide (Mark m = get squares c)) eqn:Hc; [|done].
  apply bool_decide_eq_true_1 in Hb, Hc. simpl. intros [= <-].
  exists (a, b, c), m. split; [by left|]. unfold complete. by rewrite Ha.
Qed.

(** While no line is complete, the evaluator reports a win for [m] after
    [m] is placed on the empty cell [i] exactly when that placement
    completes one of the eight lines with [m]. *)
Lemma winsFor_completes_line (b : Board) m i :
  noneComplete b lines →
  winsFor b m i
  ↔ isEmpty b i ∧ ∃ t, t ∈ lines ∧ complete (put b i (Mark m)) m t.
Proof.
  intros Hnone. unfold winsFor. apply and_iff_compat_l. split.
  - intros [l Hl]. unfold calculateWinner in Hl.
    destruct (scanLines _ lines) as [r|] eqn:E.
    + apply scanLines_Some_inv in E as (t & m' & Hin & Hc & ->).
      injection Hl as -> _. by exists t.
    + by destruct (negb (includesNull _)).
  - intros (t & Hin & Hc).
    destruct (first_complete_or_none (put b i (Mark m)) lines)
      as [(pre & t0 & post & m0 & Hlines & Hpre & Hc0)|Hno].
    2: { by destruct (Hno t m). }
    assert (m0 = m) as ->.
    { destruct (decide (m0 = m)) as [|Hne]; [done|]. exfalso.
      apply (Hnone t0 m0).
      { rewrite Hlines. apply elem_of_app. right. by left. }
      destruct t0 as [[a0 b0] c0]. unfold complete in *.
      rewrite !get_put in Hc0.
      repeat case_decide; destruct Hc0 as (? & ? & ?); split_and!;
        done || congruence. }
    exists (lineIndices t0). unfold calculateWinner.
    by rewrite Hlines, (scanLines_first _ _ _ _ m).
Qed.

(** ** The five rules of [findBestMove] *)

Section Rules.
Variable b : Board.

Lemma rule_win i :
  lowest (winsFor b MarkO) i → findBestMove b = Some i.
Proof.
  intros H. unfold findBestMove.
  by rewrite (firstIndex_lowest _ _ (tryMark_spec b MarkO) i H).
Qed.

Lemma rule_block i :
  nowhere (winsFor b MarkO) →
  lowest (winsFor b MarkX) i →
  findBestMove b = Some i.
Proof.
  intros HO H. unfold findBestMove.
  rewrite (firstIndex_nowhere _ _ (tryMark_spec b MarkO) HO).
  by rewrite (firstIndex_lowest _ _ (tryMark_spec b MarkX) i H).
Qed.

Lemma rule_center :
  nowhere (winsFor b MarkO) →
  nowhere (winsFor b MarkX) →
  isEmpty b 4 →
  findBestMove b = Some 4.
Proof.
  intros HO HX H4. unfold findBestMove.
  rewrite (firstIndex_nowhere _ _ (tryMark_spec b MarkO) HO).
  rewrite (firstIndex_nowhere _ _ (tryMark_spec b MarkX) HX).
  by rewrite (proj2 (isEmpty_spec b 4) H4).
Qed.

Lemma center_taken : ¬ isEmpty b 4 → negb (truthy (get b 4)) = false.
Proof.
  intros H4. destruct (negb (truthy (get b 4))) eqn:E; [|done].
  by apply isEmpty_spec in E.
Qed.

Lemma rule_corner i :
  nowhere (winsFor b MarkO) →
  nowhere (winsFor b MarkX) →
  ¬ isEmpty b 4 →
  firstAmong (isEmpty b) [0; 2; 6; 8] i →
  findBestMove b = Some i.
Proof.
  intros HO HX H4 H. unfold findBestMove.
  rewrite (firstIndex_nowhere _ _ (tryMark_spec b MarkO) HO).
  rewrite (firstIndex_nowhere _ _ (tryMark_spec b MarkX) HX).
  rewrite (center_taken H4).
  by rewrite (firstIndex_first _ _ (isEmpty_spec b) _ i H).
Qed.

Lemma rule_any i :
  nowhere (winsFor b MarkO) →
  nowhere (winsFor b MarkX) →
  ¬ isEmpty b 4 →
  (∀ j, j ∈ [0; 2; 6; 8] → ¬ isEmpty b j) →
  lowest (isEmpty b) i →
  findBestMove b = Some i.
Proof.
  intros HO HX H4 Hcorner H. unfold findBestMove.
  rewrite (firstIndex_nowhere _ _ (tryMark_spec b MarkO) HO).
  rewrite (firstIndex_nowhere _ _ (tryMark_spec b MarkX) HX).
  rewrite (center_taken H4).
  rewrite (firstIndex_none _ _ (isEmpty_spec b) _ Hcorner).
  by rewrite (firstIndex_lowest _ _ (isEmpty_spec b) i H).
Qed.

(** Whatever [findBestMove] returns is one of the indices 0..8 and an
    empty cell. *)
Lemma findBestMove_Some i :
  findBestMove b = Some i → i < 9 ∧ isEmpty b i.
Proof.
  assert (Hseq : ∀ P t, (∀ k, t k = true ↔ P k) →
            firstIndex t (seq 0 9) = Some i → i < 9 ∧ P i).
  { intros P t Ht [Hin HP]%(firstIndex_Some_inv _ _ Ht).
    apply elem_of_seq in Hin. split; [lia|done]. }
  unfold findBestMove.
  destruct (firstIndex (tryMark b MarkO) (seq 0 9)) as [k|] eqn:E1.
  { intros [= ->]. apply (Hseq _ _ (tryMark_spec b MarkO)) in E1.
    destruct E1 as [? [? _]]. done. }
  destruct (firstIndex (tryMark b MarkX) (seq 0 9)) as [k|] eqn:E2.
  { intros [= ->]. apply (Hseq _ _ (tryMark_spec b MarkX)) in E2.
    destruct E2 as [? [? _]]. done. }
  destruct (negb (truthy (get b 4))) eqn:E3.
  { intros [= <-]. split; [lia|]. by apply isEmpty_spec. }
  destruct (firstIndex _ [0; 2; 6; 8]) as [k|] eqn:E4.
  { intros [= ->].
    apply (firstIndex_Some_inv _ _ (isEmpty_spec b)) in E4 as [Hin HP].
    split; [|done].
    repeat (apply elem_of_cons in Hin as [->|Hin]; [lia|]).
    by apply elem_of_nil in Hin. }
  intros E5. by apply (Hseq _ _ (isEmpty_spec b)) in E5.
Qed.

(** It returns [null] only when none of the cells 0..8 is empty. *)
Lemma findBestMove_None :
  findBestMove b = None ↔ nowhere (isEmpty b).
Proof.
  split.
  - unfold findBestMove.
    destruct (firstIndex (tryMark b MarkO) (seq 0 9)); [done|].
    destruct (firstIndex (tryMark b MarkX) (seq 0 9)); [done|].
    destruct (negb (truthy (get b 4))); [done|].
    destruct (firstIndex _ [0; 2; 6; 8]); [done|].
    intros E j Hj.
    apply (firstIndex_None_inv _ _ (isEmpty_spec b) _ E).
    apply elem_of_seq. lia.
  - intros Hno. destruct (findBestMove b) as [i|] eqn:E; [|done].
    apply findBestMove_Some in E as [Hi HE]. by destruct (Hno i).
Qed.

End Rules.

(** C3. The five rules of [findBestMove], in priority order.  The selector
    plays O against X: (1) the lowest empty cell where placing O makes the
    evaluator report a win for O; else (2) the lowest empty cell where
    placing X makes it report a win for X; else (3) cell 4 if empty; else
    (4) the first empty cell among 0, 2, 6, 8 in that order; else (5) the
    lowest empty cell.  In particular, as soon as some cell completes a win
    for O, the returned cell is one that does. *)
Theorem findBestMove_priority (b : Board) :
  (∀ i, lowest (winsFor b MarkO) i → findBestMove b = Some i)
  ∧ (nowhere (winsFor b MarkO) →
     ∀ i, lowest (winsFor b MarkX) i → findBestMove b = Some i)
  ∧ (nowhere (winsFor b MarkO) → nowhere (winsFor b MarkX) →
     isEmpty b 4 → findBestMove b = Some 4)
  ∧ (nowhere (winsFor b MarkO) → nowhere (winsFor b MarkX) →
     ¬ isEmpty b 4 →
     ∀ i, firstAmong (isEmpty b) [0; 2; 6; 8] i → findBestMove b = Some i)
  ∧ (nowhere (winsFor b MarkO) → nowhere (winsFor b MarkX) →
     ¬ isEmpty b 4 → (∀ j, j ∈ [0; 2; 6; 8] → ¬ isEmpty b j) →
     ∀ i, lowest (isEmpty b) i → findBestMove b = Some i)
  ∧ (∀ i, i < 9 → winsFor b MarkO i →
     ∃ k, findBestMove b = Some k ∧ winsFor b MarkO k ∧ k ≤ i).
Proof.
  split_and!.
  - apply rule_win.
  - intros HO i. by apply rule_block.
  - apply rule_center.
  - intros HO HX H4 i. by apply rule_corner.
  - intros HO HX H4 Hc i. by apply rule_any.
  - intros i Hi Hwin.
    destruct (firstIndex (tryMark b MarkO) (seq 0 9)) as [k|] eqn:E.
    + apply (firstIndex_lowest_inv _ _ (tryMark_spec b MarkO)) in E.
      exists k. split; [by apply rule_win|].
      destruct E as (_ & Hk & Hlow). split; [done|].
      destruct (decide (k ≤ i)) as [|Hgt]; [done|].
      destruct (Hlow i); [lia|done].
    + destruct (firstIndex_None_inv _ _ (tryMark_spec b MarkO) _ E i);
        [apply elem_of_seq; lia | done].
Qed.

(** The spec's sample position: O cannot win at once, X threatens cell 2. *)
Example findBestMove_blocks : findBestMove [x;x;__; o;__;__; __;__;__] = Some 2.
Proof. reflexivity. Qed.

(** A win is preferred to a block and to the center. *)
Example findBestMove_wins : findBestMove [x;x;__; o;__;o; __;__;x] = Some 4.
Proof. reflexivity. Qed.

Example findBestMove_win_over_block :
  findBestMove [x;x;__; o;o;__; x;__;__] = Some 5.
Proof. reflexivity. Qed.

(** Center, then corner, then any free cell, when nobody can win at once. *)
Example findBestMove_center :
  findBestMove [__;__;__; __;__;__; __;__;x] = Some 4.
Proof. reflexivity. Qed.

Example findBestMove_corner :
  findBestMove [__;__;__; __;x;__; __;__;__] = Some 0.
Proof. reflexivity. Qed.

Example findBestMove_any : findBestMove [x;__;o; o;x;x; x;__;o] = Some 1.
Proof. reflexivity. Qed.

Example findBestMove_full : findBestMove [x;o;x; o;x;o; o;x;o] = None.
Proof. reflexivity. Qed.

(** ** Empty cells of a well-formed board *)

Lemma wfBoard_isEmpty (b : Board) i :
  wfBoard b → i < 9 → (isEmpty b i ↔ b !! i = Some Null).
Proof.
  intros Hwf Hi. destruct (wfBoard_get b i Hwf Hi) as [Hget Hdef].
  unfold isEmpty. rewrite Hget.
  destruct (get b i); naive_solver.
Qed.

Lemma wfBoard_full (b : Board) :
  wfBoard b → (nowhere (isEmpty b) ↔ Null ∉ b).
Proof.
  intros Hwf. split.
  - intros Hno (i & Hi)%list_elem_of_lookup.
    assert (i < 9) by (destruct Hwf as [<- _]; by eapply lookup_lt_Some).
    apply (Hno i); [done|]. by apply wfBoard_isEmpty.
  - intros Hfull i Hi HE. apply Hfull.
    apply wfBoard_isEmpty in HE; [|done..].
    by eapply list_elem_of_lookup_2.
Qed.

(** C7. On a board of nine cells, [findBestMove] returns [null] (here
    [None]) exactly when no cell is empty; when some cell is empty it
    returns an index 0..8 whose cell is empty on the board it was given. *)
Theorem findBestMove_total (b : Board) :
  wfBoard b →
  (findBestMove b = None ↔ Null ∉ b)
  ∧ (Null ∈ b →
     ∃ i, findBestMove b = Some i ∧ i < 9 ∧ b !! i = Some Null).
Proof.
  intros Hwf. split.
  - rewrite findBestMove_None. by apply wfBoard_full.
  - intros Hin. destruct (findBestMove b) as [i|] eqn:E.
    + exists i. apply findBestMove_Some in E as [Hi HE].
      split; [done|]. split; [done|]. by apply wfBoard_isEmpty.
    + apply findBestMove_None, wfBoard_full in E; done.
Qed.

Lemma findBestMove_total_witness :
  let b := [x;o;x; o;x;o; o;x;__] in
  wfBoard b
  ∧ (findBestMove b = None ↔ Null ∉ b)
  ∧ (Null ∈ b →
     ∃ i, findBestMove b = Some i ∧ i < 9 ∧ b !! i = Some Null).
Proof.
  cbv zeta.
  assert (Hwf : wfBoard [x;o;x; o;x;o; o;x;__]).
  { split; [reflexivity|]. repeat constructor; discriminate. }
  split; [exact Hwf|]. exact (findBestMove_total _ Hwf).
Defined.

(** ** The selector reads cells 0..8 only *)

Section Agree.
Variables b1 b2 : Board.
Hypothesis agree : ∀ i, i < 9 → get b1 i = get b2 i.

Lemma agree_put i v j :
  j < 9 → get (put b1 i v) j = get (put b2 i v) j.
Proof. intros Hj. rewrite !get_put. case_decide; [done|by apply agree]. Qed.

End Agree.

Lemma scanLines_agree_on (b1 b2 : Board) ls :
  (∀ i, i < 9 → get b1 i = get b2 i) →
  Forall (λ l, l.1.1 < 9 ∧ l.1.2 < 9 ∧ l.2 < 9) ls →
  scanLines b1 ls = scanLines b2 ls.
Proof.
  intros H. induction 1 as [|[[a b] c] ls (Ha & Hb & Hc) _ IH]; [done|].
  simpl in Ha, Hb, Hc. cbn [scanLines].
  by rewrite (H a Ha), (H b Hb), (H c Hc), IH.
Qed.

Lemma lines_in_range : Forall (λ l, l.1.1 < 9 ∧ l.1.2 < 9 ∧ l.2 < 9) lines.
Proof. repeat constructor; simpl; lia. Qed.

Lemma scanLines_agree (b1 b2 : Board) :
  (∀ i, i < 9 → get b1 i = get b2 i) →
  scanLines b1 lines = scanLines b2 lines.
Proof. intros H. apply scanLines_agree_on; [done|apply lines_in_range]. Qed.

Lemma winnerIs_calculateWinner (b : Board) m :
  winnerIs (calculateWinner b) m = winnerIs (scanLines b lines) m.
Proof.
  unfold calculateWinner. destruct (scanLines b lines); [done|].
  by destruct (negb (includesNull b)).
Qed.

Lemma tryMark_agree (b1 b2 : Board) m i :
  (∀ j, j < 9 → get b1 j = get b2 j) →
  i < 9 →
  tryMark b1 m i = tryMark b2 m i.
Proof.
  intros H Hi. unfold tryMark. rewrite (H i Hi), !winnerIs_calculateWinner.
  rewrite (scanLines_agree (put b1 i (Mark m)) (put b2 i (Mark m))); [done|].
  intros j Hj. by apply agree_put.
Qed.

(** C8. [findBestMove] is a function of the nine cells it reads: two
    boards that agree on the cells 0..8 give the same result.  In
    particular two calls on the same snapshot return the same cell; nothing
    else (no random source, no other state) enters the result. *)
Theorem findBestMove_deterministic (b1 b2 : Board) :
  (∀ i, i < 9 → get b1 i = get b2 i) →
  findBestMove b1 = findBestMove b2.
Proof.
  intros H. unfold findBestMove.
  assert (Hempty : ∀ order, (∀ i, i ∈ order → i < 9) →
    firstIndex (λ i, negb (truthy (get b1 i))) order
    = firstIndex (λ i, negb (truthy (get b2 i))) order).
  { intros order Hord. apply firstIndex_ext. intros i Hi.
    by rewrite (H i (Hord i Hi)). }
  assert (Htry : ∀ m, firstIndex (tryMark b1 m) (seq 0 9)
                      = firstIndex (tryMark b2 m) (seq 0 9)).
  { intros m. apply firstIndex_ext. intros i Hi%elem_of_seq.
    apply tryMark_agree; [done|lia]. }
  rewrite !Htry, (H 4) by lia.
  rewrite (Hempty [0; 2; 6; 8]), (Hempty (seq 0 9)); [done|..].
  - intros i Hi%elem_of_seq. lia.
  - intros i Hi. repeat (apply elem_of_cons in Hi as [->|Hi]; [lia|]).
    by apply elem_of_nil in Hi.
Qed.

Lemma findBestMove_deterministic_witness :
  let b1 := [x;x;__; o;__;__; __;__;__] in
  let b2 := [x;x;__; o;__;__; __;__;__] in
  (∀ i, i < 9 → get b1 i = get b2 i)
  ∧ findBestMove b1 = findBestMove b2.
Proof.
  cbv zeta.
  assert (H : ∀ i, i < 9 →
            get [x;x;__; o;__;__; __;__;__] i
            = get [x;x;__; o;__;__; __;__;__] i).
  { intros i Hi. reflexivity. }
  split; [exact H|]. exact (findBestMove_deterministic _ _ H).
Defined.

(** Cells past the ninth do not matter. *)
Example findBestMove_ignores_tail :
  findBestMove [x;x;__; o;__;__; __;__;__]
  = findBestMove [x;x;__; o;__;__; __;__;__; o].
Proof. reflexivity. Qed.

(** ** Setter calls, effect and commit *)

Lemma effect_fields r r0 :
  board (applyAll r0 (effect r).1) = board r0
  ∧ xIsNext (applyAll r0 (effect r).1) = xIsNext r0
  ∧ gameMode (applyAll r0 (effect r).1) = gameMode r0
  ∧ isGameActive (applyAll r0 (effect r).1)
    = match calculateWinner (board r) with
      | Some _ => false
      | None => isGameActive r0
      end
  ∧ winnerLine (applyAll r0 (effect r).1)
    = match calculateWinner (board r) with
      | Some res => line res
      | None => []
      end.
Proof.
  unfold effect.
  destruct (calculateWinner (board r)) as [[[w|] l]|];
    destruct (gameMode r), (xIsNext r); done.
Qed.

(** The effect's own setter calls touch none of its dependencies. *)
Lemma effect_keeps_deps r :
  depsChanged r (effect r).1 (applyAll r (effect r).1) = false.
Proof.
  unfold effect.
  destruct (calculateWinner (board r)) as [[[w|] l]|];
    destruct r as [b [] [] act st wl ai]; done.
Qed.

Lemma effect_scheduled r :
  (effect r).2 = true
  ↔ gameMode r = AI ∧ xIsNext r = false ∧ calculateWinner (board r) = None.
Proof.
  unfold effect.
  destruct (calculateWinner (board r)), (gameMode r), (xIsNext r);
    simpl; (split; [done || (intros; by split_and!) | by intros (? & ? & ?)]).
Qed.

Lemma effect_unscheduled r : xIsNext r = true → (effect r).2 = false.
Proof.
  intros Hx. destruct ((effect r).2) eqn:E; [|done].
  apply effect_scheduled in E as (_ & E & _). congruence.
Qed.

Lemma commit_changed s acts :
  depsChanged (state s) acts (applyAll (state s) acts) = true →
  commit s acts
  = mkSession
      (applyAll (applyAll (state s) acts)
         (effect (applyAll (state s) acts)).1)
      (if (effect (applyAll (state s) acts)).2
       then Some (applyAll (state s) acts) else None).
Proof.
  intros H. unfold commit. rewrite H.
  by destruct (effect (applyAll (state s) acts)).
Qed.

Lemma depsChanged_nil r : depsChanged r [] r = false.
Proof. unfold depsChanged. by rewrite !bool_decide_eq_true_2. Qed.

Lemma commit_nil s : commit s [] = s.
Proof.
  unfold commit. simpl. rewrite depsChanged_nil. by destruct s.
Qed.

(** ** The handlers *)

Lemma handleClick_rejected r i : rejects r i → handleClick r i = [].
Proof.
  unfold handleClick. intros [->|[->|[-> ->]]]; simpl; [done| |].
  - by rewrite orb_true_r.
  - by rewrite orb_true_r.
Qed.

Lemma handleClick_accepted r i :
  ¬ rejects r i →
  handleClick r i
  = [ SetBoard (put (board r) i (Mark (if xIsNext r then MarkX else MarkO)));
      SetXIsNext (negb (xIsNext r)) ].
Proof.
  unfold rejects, handleClick. intros Hno.
  destruct (isGameActive r); [|by destruct Hno; left].
  destruct (truthy (get (board r) i)); [by destruct Hno; right; left|].
  destruct (gameMode r); [done|].
  destruct (xIsNext r); [done|]. destruct Hno. by right; right.
Qed.

Lemma step_click_rejected s i :
  rejects (state s) i → step s (Click i) = s.
Proof.
  intros H. simpl. rewrite handleClick_rejected by done. apply commit_nil.
Qed.

Lemma step_click_accepted s i :
  ¬ rejects (state s) i →
  let new :=
    mkState
      (put (board (state s)) i
         (Mark (if xIsNext (state s) then MarkX else MarkO)))
      (negb (xIsNext (state s))) (gameMode (state s))
      (isGameActive (state s)) (status (state s)) (winnerLine (state s))
      (aiThinking (state s)) in
  step s (Click i)
  = mkSession (applyAll new (effect new).1)
      (if (effect new).2 then Some new else None).
Proof.
  intros H. simpl. rewrite handleClick_accepted by done.
  by rewrite commit_changed.
Qed.

Lemma step_reset s acts v :
  acts = handleRestart ∧ v = gameMode (state s)
  ∨ acts = handleModeChange v →
  let new := mkState emptyBoard true v true "" [] false in
  commit s acts = mkSession (applyAll new (effect new).1) None.
Proof.
  intros [[-> ->]| ->]; simpl; rewrite commit_changed by done; simpl;
    by rewrite effect_unscheduled.
Qed.

(** The callback of a timeout that the effect scheduled calls
    [handleClick] of a render in which it is the computer's turn: the call
    returns at once, and only [setAiThinking(false)] is left. *)
Lemma timeoutCallback_stale r :
  gameMode r = AI → xIsNext r = false →
  timeoutCallback r = [ SetAiThinking false ].
Proof.
  intros Hm Hx. unfold timeoutCallback.
  destruct (findBestMove (board r)) as [move|]; [|done].
  rewrite handleClick_rejected; [done|]. by right; right.
Qed.

Lemma step_timeout s r :
  timeout s = Some r → gameMode r = AI → xIsNext r = false →
  step s TimeoutFires
  = mkSession (applyAction (state s) (SetAiThinking false)) None.
Proof.
  intros Ht Hm Hx. simpl. rewrite Ht, timeoutCallback_stale by done.
  unfold commit, depsChanged. simpl.
  by rewrite !bool_decide_eq_true_2.
Qed.

(** ** Counting marks *)

Lemma countMark_cons m c (b : Board) :
  countMark m (c :: b)
  = (if decide (c = Mark m) then 1 else 0) + countMark m b.
Proof. unfold countMark. rewrite filter_cons. by case_decide. Qed.

Lemma countMark_insert (b : Board) i m m' :
  b !! i = Some Null →
  countMark m (<[i:=Mark m']> b)
  = countMark m b + (if decide (m = m') then 1 else 0).
Proof.
  revert i. induction b as [|c b IH]; intros [|i] Hi; try done; simpl in *.
  - injection Hi as ->. rewrite !countMark_cons.
    repeat case_decide; done || congruence || lia.
  - rewrite !countMark_cons, (IH i Hi). lia.
Qed.

Lemma countMark_empty m : countMark m emptyBoard = 0.
Proof. reflexivity. Qed.

Lemma wfBoard_empty : wfBoard emptyBoard.
Proof. split; [done|]. by repeat constructor. Qed.

(** On a well-formed board, a click that the page can produce and that
    [handleClick] accepts lands on an existing [null] cell. *)
Lemma accepted_cell (b : Board) i :
  wfBoard b → get b i ≠ Undefined → truthy (get b i) = false →
  i < 9 ∧ b !! i = Some Null.
Proof.
  intros Hwf Hdef Hfalsy.
  assert (Hi : i < 9).
  { destruct (decide (i < 9)); [done|]. destruct Hdef. unfold get.
    rewrite lookup_ge_None_2; [done|]. destruct Hwf as [-> _]. lia. }
  split; [done|]. by apply wfBoard_isEmpty.
Qed.

Lemma put_in_range (b : Board) i v :
  i < length b → put b i v = <[i:=v]> b.
Proof. intros H. unfold put. by case_decide. Qed.

Lemma wfBoard_put (b : Board) i m :
  wfBoard b → i < 9 → wfBoard (put b i (Mark m)).
Proof.
  intros [Hlen Hall] Hi. rewrite put_in_range by lia. split.
  - by rewrite length_insert.
  - by apply Forall_insert.
Qed.

(** ** The invariant of reachable sessions *)

Lemma invariant_mount : invariant mount.
Proof.
  split; try done.
  by apply wfBoard_empty.
Qed.

(** The session that a commit builds from a render [new] whose
    dependencies changed satisfies the invariant as soon as the board of
    [new] is well formed, its marks are balanced and its game is active. *)
Lemma invariant_commit (new : State) :
  wfBoard (board new) →
  countMark MarkX (board new)
  = countMark MarkO (board new) + (if xIsNext new then 0 else 1) →
  (gameMode new = AI → countMark MarkO (board new) = 0) →
  isGameActive new = true →
  invariant (mkSession (applyAll new (effect new).1)
               (if (effect new).2 then Some new else None)).
Proof.
  intros Hwf Hcount Hai Hactive.
  destruct (effect_fields new new) as (Hb & Hx & Hm & Hact & Hwl).
  split; simpl; rewrite ?Hb, ?Hx, ?Hm, ?Hact, ?Hwl; try done.
  - rewrite Hactive. by destruct (calculateWinner (board new)).
  - intros r Hr. destruct (effect new).2 eqn:E; [|done].
    injection Hr as <-. by apply effect_scheduled in E as (? & ? & ?).
Qed.

Section Preservation.
Variable s : Session.
Hypothesis Hinv : invariant s.

Lemma invariant_reset acts v :
  acts = handleRestart ∧ v = gameMode (state s)
  ∨ acts = handleModeChange v →
  invariant (commit s acts) ∧ isReset (commit s acts)
  ∧ gameMode (state (commit s acts)) = v.
Proof.
  intros H. rewrite (step_reset s acts v H).
  split; [|by destruct v].
  set (new := mkState emptyBoard true v true "" [] false).
  replace (@None State) with (if (effect new).2 then Some new else None)
    by by rewrite effect_unscheduled.
  apply invariant_commit; try done. apply wfBoard_empty.
Qed.

Lemma invariant_click i :
  enabled s (Click i) → invariant (step s (Click i)).
Proof.
  intros Hen. destruct (decide (rejects (state s) i)) as [Hrej|Hacc].
  { by rewrite step_click_rejected. }
  rewrite step_click_accepted by done.
  destruct Hinv as [Hwf Hcount Hai Hres Hto].
  assert (Hactive : isGameActive (state s) = true).
  { destruct (isGameActive (state s)) eqn:E; [done|].
    by destruct Hacc; left. }
  assert (Hfalsy : truthy (get (board (state s)) i) = false).
  { destruct (truthy (get (board (state s)) i)) eqn:E; [|done].
    by destruct Hacc; right; left. }
  destruct (accepted_cell _ i Hwf Hen Hfalsy) as [Hi Hnull].
  assert (Hlt : i < length (board (state s))).
  { by eapply lookup_lt_Some. }
  apply invariant_commit; simpl; [| | |done].
  - by apply wfBoard_put.
  - rewrite put_in_range by done.
    rewrite !countMark_insert, Hcount by done.
    destruct (xIsNext (state s)); repeat case_decide; simpl; done || lia.
  - intros HAI. rewrite put_in_range by done.
    rewrite countMark_insert, (Hai HAI) by done.
    destruct (xIsNext (state s)) eqn:Hxn; [by case_decide|].
    destruct Hacc. by right; right.
Qed.

Lemma invariant_timeout :
  enabled s TimeoutFires → invariant (step s TimeoutFires).
Proof.
  intros [r Hr]. destruct Hinv as [Hwf Hcount Hai Hres Hto].
  destruct (Hto r Hr) as (Hm & Hx & _).
  rewrite (step_timeout s r) by done.
  by split.
Qed.

Lemma invariant_step e : enabled s e → invariant (step s e).
Proof.
  destruct e as [i| |v|]; intros Hen.
  - by apply invariant_click.
  - apply (invariant_reset _ (gameMode (state s))). by left.
  - apply (invariant_reset _ v). by right.
  - by apply invariant_timeout.
Qed.

End Preservation.

Lemma reachable_invariant s : reachable s → invariant s.
Proof.
  induction 1 as [|s e _ IH Hen]; [apply invariant_mount|].
  by apply invariant_step.
Qed.

Lemma reachable_run s es :
  reachable s → enabledAll s es → reachable (run s es).
Proof.
  revert s. induction es as [|e es IH]; intros s Hs Hen; [done|].
  destruct Hen as [He Hes]. apply IH; [|done]. by apply reachable_step.
Qed.

(** ** The computer's move *)

(** In versus-computer mode no O is ever on the board. *)
Lemma computer_never_marks s :
  reachable s → gameMode (state s) = AI →
  countMark MarkO (board (state s)) = 0.
Proof. intros Hs. by apply reachable_invariant. Qed.

(** A timeout that fires changes neither the board nor the turn. *)
Lemma timeout_changes_nothing s :
  reachable s →
  board (state (step s TimeoutFires)) = board (state s)
  ∧ xIsNext (state (step s TimeoutFires)) = xIsNext (state s).
Proof.
  intros Hs%reachable_invariant. destruct (timeout s) as [r|] eqn:Hr.
  - destruct (inv_timeout s Hs r Hr) as (Hm & Hx & _).
    by rewrite (step_timeout s r).
  - simpl. by rewrite Hr.
Qed.

(** C1. Versus the computer, after the human's X on cell 0 the evaluator
    reports no result and the effect schedules the timeout; the selector
    picks cell 4.  When the timeout fires, [handleClick(4)] is the handler
    of the render that scheduled it, where it is the computer's turn: it
    returns at once.  No O appears, the turn stays with the computer, and
    every later click is rejected. *)
Theorem computer_move_dropped :
  let s := run mount [ModeChange AI; Click 0] in
  reachable s
  ∧ gameMode (state s) = AI
  ∧ board (state s) = [x;__;__; __;__;__; __;__;__]
  ∧ calculateWinner (board (state s)) = None
  ∧ is_Some (timeout s)
  ∧ findBestMove (board (state s)) = Some 4
  ∧ board (state (step s TimeoutFires)) = [x;__;__; __;__;__; __;__;__]
  ∧ xIsNext (state (step s TimeoutFires)) = false
  ∧ ∀ i, step (step s TimeoutFires) (Click i) = step s TimeoutFires.
Proof.
  cbv zeta. split_and!; try reflexivity.
  - apply reachable_run; [apply reachable_mount|]. enabled_events.
  - by eexists.
  - intros i. apply step_click_rejected. by right; right.
Qed.

(** ** Restart and mode change *)

Lemma reset_isReset s acts v :
  acts = handleRestart ∧ v = gameMode (state s)
  ∨ acts = handleModeChange v →
  isReset (commit s acts) ∧ gameMode (state (commit s acts)) = v.
Proof. intros H. rewrite (step_reset s acts v H). by destruct v. Qed.

Lemma restart_isReset s :
  isReset (step s Restart)
  ∧ gameMode (state (step s Restart)) = gameMode (state s).
Proof. apply (reset_isReset s handleRestart). by left. Qed.

Lemma modeChange_isReset s v :
  isReset (step s (ModeChange v))
  ∧ gameMode (state (step s (ModeChange v))) = v.
Proof. apply (reset_isReset s (handleModeChange v)). by right. Qed.

(** C4. After a restart or a mode change the board is empty, X moves
    first, the game is active and no timeout is pending: the cleanup of the
    effect has cleared the one that was, so its callback cannot fire on the
    new board. *)
Theorem reset_clears_session (s : Session) (v : mode) :
  isReset (step s Restart)
  ∧ isReset (step s (ModeChange v))
  ∧ ¬ enabled (step s Restart) TimeoutFires
  ∧ ¬ enabled (step s (ModeChange v)) TimeoutFires
  ∧ step (step s Restart) TimeoutFires = step s Restart
  ∧ step (step s (ModeChange v)) TimeoutFires = step s (ModeChange v).
Proof.
  destruct (restart_isReset s) as [(Hb & Hx & Ha & Ht) _].
  destruct (modeChange_isReset s v) as [(Hb' & Hx' & Ha' & Ht') _].
  split_and!; try done.
  - unfold enabled. rewrite Ht. by intros [? ?].
  - unfold enabled. rewrite Ht'. by intros [? ?].
  - unfold step at 1. by rewrite Ht.
  - unfold step at 1. by rewrite Ht'.
Qed.

(** A timeout pending before a restart is gone after it. *)
Example restart_cancels_timeout :
  let s := run mount [ModeChange AI; Click 0] in
  is_Some (timeout s)
  ∧ timeout (step s Restart) = None
  ∧ board (state (run s [Restart; TimeoutFires])) = emptyBoard.
Proof. cbv zeta. split_and!; [by eexists|reflexivity..]. Qed.

(** ** Rejected clicks *)

(** C5. A click on an occupied cell, a click while the game is not active,
    and a click during the computer's turn in computer mode make no setter
    call; the session, with all its state, is left as it was. *)
Theorem rejected_click_is_noop (s : Session) (i : nat) :
  rejects (state s) i →
  handleClick (state s) i = [] ∧ step s (Click i) = s.
Proof.
  intros H. split; [by apply handleClick_rejected|by apply step_click_rejected].
Qed.

Lemma rejected_click_is_noop_witness :
  rejects (state (run mount [Click 0])) 0
  ∧ handleClick (state (run mount [Click 0])) 0 = []
  ∧ step (run mount [Click 0]) (Click 0) = run mount [Click 0].
Proof.
  assert (H : rejects (state (run mount [Click 0])) 0).
  { right; left. reflexivity. }
  split; [exact H|]. exact (rejected_click_is_noop _ _ H).
Defined.

Example click_after_win_rejected :
  let s := run mount [Click 0; Click 4; Click 1; Click 7; Click 2] in
  isGameActive (state s) = false ∧ step s (Click 5) = s.
Proof. by vm_compute. Qed.

Example click_on_computer_turn_rejected :
  let s := run mount [ModeChange AI; Click 0] in
  gameMode (state s) = AI ∧ xIsNext (state s) = false
  ∧ step s (Click 5) = s.
Proof. by vm_compute. Qed.

(** ** Marks on reachable boards *)

(** An event either empties the board or keeps every mark where it is. *)
Lemma step_keeps_marks s e :
  invariant s → enabled s e →
  board (state (step s e)) = emptyBoard
  ∨ ∀ j m, get (board (state s)) j = Mark m →
           get (board (state (step s e))) j = Mark m.
Proof.
  intros Hinv Hen. destruct e as [i| |v|].
  - right. destruct (decide (rejects (state s) i)) as [Hrej|Hacc].
    { by rewrite step_click_rejected. }
    rewrite step_click_accepted by done. cbv zeta. simpl.
    intros j m Hj.
    match goal with |- context [applyAll ?n (effect ?n).1] =>
      destruct (effect_fields n n) as (-> & _) end.
    simpl. rewrite get_put. case_decide as Hji; [|done]. subst j.
    destruct Hacc. right; left. by rewrite Hj.
  - left. apply restart_isReset.
  - left. apply modeChange_isReset.
  - right. intros j m Hj. destruct Hen as [r Hr].
    destruct (inv_timeout s Hinv r Hr) as (Hm & Hx & _).
    by rewrite (step_timeout s r).
Qed.

(** On an empty reachable board every click on a square is accepted and
    places an X. *)
Lemma first_mark_is_X s i :
  invariant s → board (state s) = emptyBoard → i < 9 →
  xIsNext (state s) = true
  ∧ board (state (step s (Click i))) = <[i:=Mark MarkX]> emptyBoard.
Proof.
  intros Hinv Hb Hi.
  assert (Hx : xIsNext (state s) = true).
  { pose proof (inv_count s Hinv) as Hc. rewrite Hb in Hc.
    rewrite !countMark_empty in Hc. destruct (xIsNext (state s)); [done|lia]. }
  split; [done|].
  pose proof (inv_result s Hinv) as Hres. rewrite Hb in Hres.
  change (calculateWinner emptyBoard) with (@None result) in Hres.
  destruct Hres as [Hact _].
  assert (Hget : get emptyBoard i = Null).
  { apply get_lookup. by apply lookup_replicate_2. }
  assert (Hacc : ¬ rejects (state s) i).
  { unfold rejects. rewrite Hb, Hget, Hact, Hx.
    intros [?|[?|[_ ?]]]; discriminate. }
  rewrite step_click_accepted by done. cbv zeta. simpl.
  match goal with |- context [applyAll ?n (effect ?n).1] =>
    destruct (effect_fields n n) as (-> & _) end.
  simpl. rewrite Hb, Hx. by rewrite put_in_range.
Qed.

(** C6. In every reachable session the board has nine cells, each [null]
    or one mark; the X count is the O count, plus one exactly when O is to
    move, so the counts differ by at most 1 and X is never behind; an event
    either empties the board or leaves every mark in place (a mark is never
    overwritten); and on the empty board it is X's turn: the first mark
    placed is an X. *)
Theorem reachable_marks (s : Session) :
  reachable s →
  wfBoard (board (state s))
  ∧ countMark MarkX (board (state s))
    = countMark MarkO (board (state s)) + (if xIsNext (state s) then 0 else 1)
  ∧ countMark MarkO (board (state s)) ≤ countMark MarkX (board (state s))
    ≤ countMark MarkO (board (state s)) + 1
  ∧ (∀ e, enabled s e →
       board (state (step s e)) = emptyBoard
       ∨ ∀ j m, get (board (state s)) j = Mark m →
                get (board (state (step s e))) j = Mark m)
  ∧ (board (state s) = emptyBoard →
     xIsNext (state s) = true
     ∧ ∀ i, i < 9 →
            board (state (step s (Click i))) = <[i:=Mark MarkX]> emptyBoard).
Proof.
  intros Hinv%reachable_invariant.
  pose proof (inv_count s Hinv) as Hc.
  split_and!.
  - by apply inv_wf.
  - done.
  - destruct (xIsNext (state s)); lia.
  - destruct (xIsNext (state s)); lia.
  - intros e. by apply step_keeps_marks.
  - intros Hb. split.
    + apply (first_mark_is_X s 0); [done..|lia].
    + intros i Hi. by apply first_mark_is_X.
Qed.

Lemma reachable_marks_witness :
  let s := run mount [Click 0; Click 4; Click 1] in
  reachable s
  ∧ wfBoard (board (state s))
  ∧ countMark MarkX (board (state s))
    = countMark MarkO (board (state s)) + (if xIsNext (state s) then 0 else 1)
  ∧ countMark MarkO (board (state s)) ≤ countMark MarkX (board (state s))
    ≤ countMark MarkO (board (state s)) + 1
  ∧ (∀ e, enabled s e →
       board (state (step s e)) = emptyBoard
       ∨ ∀ j m, get (board (state s)) j = Mark m →
                get (board (state (step s e))) j = Mark m)
  ∧ (board (state s) = emptyBoard →
     xIsNext (state s) = true
     ∧ ∀ i, i < 9 →
            board (state (step s (Click i))) = <[i:=Mark MarkX]> emptyBoard).
Proof.
  cbv zeta.
  assert (H : reachable (run mount [Click 0; Click 4; Click 1])).
  { apply reachable_run; [apply reachable_mount|].
    enabled_events. }
  split; [exact H|]. exact (reachable_marks _ H).
Defined.

(** ** Restart keeps the mode *)

(** C9. [handleRestart] sets the board, the turn, the game-active flag, the
    winning line, the status and the AI-thinking flag to their initial
    values and leaves the mode as it was; the mode is still the same after
    the effect that follows. *)
Theorem handleRestart_keeps_mode (r : State) (s : Session) :
  applyAll r handleRestart
  = mkState emptyBoard true (gameMode r) true "" [] false
  ∧ gameMode (applyAll r handleRestart) = gameMode r
  ∧ gameMode (state (step s Restart)) = gameMode (state s).
Proof.
  split_and!; try done. apply restart_isReset.
Qed.

(** ** The mode selector *)

Lemma modeSelectDisabled_spec r :
  modeSelectDisabled r = true ↔ isGameActive r = false ∧ winnerLine r ≠ [].
Proof.
  unfold modeSelectDisabled.
  rewrite andb_true_iff, negb_true_iff, bool_decide_eq_true.
  apply and_iff_compat_l. destruct (winnerLine r); simpl; split; try done.
  - lia.
  - intros _. lia.
Qed.

Lemma scanLines_line squares ls m l :
  scanLines squares ls = Some (Result m l) → l ≠ [] ∧ m ≠ Draw.
Proof.
  induction ls as [|[[a b] c] ls IH]; simpl; [done|].
  destruct (get squares a); try done.
  destruct (_ && _); [|done]. by intros [= <- <-].
Qed.

Lemma calculateWinner_Won squares m l :
  calculateWinner squares = Some (Result (Won m) l) → l ≠ [].
Proof.
  unfold calculateWinner.
  destruct (scanLines squares lines) as [[w l']|] eqn:E.
  - intros [= -> ->]. by apply scanLines_line in E as [? _].
  - by destruct (negb (includesNull squares)).
Qed.

Lemma calculateWinner_Draw squares l :
  calculateWinner squares = Some (Result Draw l) → l = [].
Proof.
  unfold calculateWinner.
  destruct (scanLines squares lines) as [[w l']|] eqn:E.
  - intros [= -> ->]. by apply scanLines_line in E as [_ ?].
  - destruct (negb (includesNull squares)); [|done]. by intros [= <-].
Qed.

(** C10. The mode selector is disabled exactly when the game is not active
    and the stored winning line is not empty.  So once the evaluator
    reports a win, the selector is disabled, no event but a restart changes
    the session, and the restart enables it again; when the evaluator
    reports a draw, whose line is empty, the selector stays enabled and a
    mode change resets the game. *)
Theorem modeSelect_after_game (s : Session) :
  reachable s →
  (modeSelectDisabled (state s) = true
   ↔ isGameActive (state s) = false ∧ winnerLine (state s) ≠ [])
  ∧ (∀ m l,
       calculateWinner (board (state s)) = Some (Result (Won m) l) →
       modeSelectDisabled (state s) = true
       ∧ (∀ v, ¬ enabled s (ModeChange v))
       ∧ (∀ e, enabled s e → e ≠ Restart → step s e = s)
       ∧ modeSelectDisabled (state (step s Restart)) = false)
  ∧ (∀ l,
       calculateWinner (board (state s)) = Some (Result Draw l) →
       l = []
       ∧ isGameActive (state s) = false
       ∧ modeSelectDisabled (state s) = false
       ∧ ∀ v, enabled s (ModeChange v)
              ∧ isReset (step s (ModeChange v))
              ∧ gameMode (state (step s (ModeChange v))) = v).
Proof.
  intros Hinv%reachable_invariant. split; [apply modeSelectDisabled_spec|].
  pose proof (inv_result s Hinv) as Hres.
  split.
  - intros m l Hwon. rewrite Hwon in Hres. destruct Hres as [Hact Hwl].
    simpl in Hwl.
    assert (Hdis : modeSelectDisabled (state s) = true).
    { apply modeSelectDisabled_spec. split; [done|].
      rewrite Hwl. by eapply calculateWinner_Won. }
    split_and!; [done| | |].
    + intros v. simpl. by rewrite Hdis.
    + intros [i| |v|] Hen Hne; [|done| |].
      * apply step_click_rejected. by left.
      * simpl in Hen. by rewrite Hdis in Hen.
      * destruct Hen as [r Hr].
        destruct (inv_timeout s Hinv r Hr) as (_ & _ & Hb & Hnone).
        rewrite Hb in Hnone. congruence.
    + destruct (restart_isReset s) as [(_ & _ & Ha & _) _].
      unfold modeSelectDisabled. by rewrite Ha.
  - intros l Hdraw. rewrite Hdraw in Hres. destruct Hres as [Hact Hwl].
    simpl in Hwl. pose proof (calculateWinner_Draw _ _ Hdraw) as ->.
    assert (Hen : modeSelectDisabled (state s) = false).
    { unfold modeSelectDisabled. by rewrite Hwl, andb_false_r. }
    split_and!; try done.
    intros v. split; [done|]. apply modeChange_isReset.
Qed.

Lemma modeSelect_after_game_witness :
  let s := run mount [Click 0; Click 4; Click 1; Click 7; Click 2] in
  reachable s
  ∧ calculateWinner (board (state s)) = Some (Result (Won MarkX) [0; 1; 2])
  ∧ (modeSelectDisabled (state s) = true
     ↔ isGameActive (state s) = false ∧ winnerLine (state s) ≠ [])
  ∧ (∀ m l,
       calculateWinner (board (state s)) = Some (Result (Won m) l) →
       modeSelectDisabled (state s) = true
       ∧ (∀ v, ¬ enabled s (ModeChange v))
       ∧ (∀ e, enabled s e → e ≠ Restart → step s e = s)
       ∧ modeSelectDisabled (state (step s Restart)) = false)
  ∧ (∀ l,
       calculateWinner (board (state s)) = Some (Result Draw l) →
       l = []
       ∧ isGameActive (state s) = false
       ∧ modeSelectDisabled (state s) = false
       ∧ ∀ v, enabled s (ModeChange v)
              ∧ isReset (step s (ModeChange v))
              ∧ gameMode (state (step s (ModeChange v))) = v).
Proof.
  cbv zeta.
  assert (H : reachable
                (run mount [Click 0; Click 4; Click 1; Click 7; Click 2])).
  { apply reachable_run; [apply reachable_mount|].
    enabled_events. }
  split; [exact H|]. split; [reflexivity|].
  exact (modeSelect_after_game _ H).
Defined.

(** A game played to a draw: the selector is enabled, and changing the
    mode resets the board. *)
Example modeSelect_after_draw :
  let s := run mount [Click 0; Click 1; Click 2; Click 4; Click 3;
                      Click 5; Click 7; Click 6; Click 8] in
  board (state s) = [x;o;x; x;o;o; o;x;x]
  ∧ calculateWinner (board (state s)) = Some (Result Draw [])
  ∧ isGameActive (state s) = false
  ∧ modeSelectDisabled (state s) = false
  ∧ board (state (step s (ModeChange AI))) = emptyBoard
  ∧ gameMode (state (step s (ModeChange AI))) = AI.
Proof. by vm_compute. Qed.

(** The spec's first end-to-end scenario. *)
Example scenario_x_wins :
  let s := run mount [Click 0; Click 4; Click 1; Click 7; Click 2] in
  board (state s) = [x;x;x; __;o;__; __;o;__]
  ∧ calculateWinner (board (state s)) = Some (Result (Won MarkX) [0; 1; 2])
  ∧ isGameActive (state s) = false
  ∧ winnerLine (state s) = [0; 1; 2]
  ∧ status (state s) = "Winner: Player 1"%string.
Proof. by vm_compute. Qed.

(** * Further properties of the session controller and of the view *)

(** ** What a result of the evaluator means *)

Lemma scanLines_None_inv squares ls :
  scanLines squares ls = None → noneComplete squares ls.
Proof.
  intros Hnone.
  destruct (first_complete_or_none squares ls)
    as [(pre & t & post & m & -> & Hpre & Ht)|Hno]; [|done].
  by rewrite (scanLines_first _ _ _ _ m) in Hnone.
Qed.

Lemma scanLines_Some_first squares ls r :
  scanLines squares ls = Some r →
  ∃ pre t post m,
    ls = pre ++ t :: post ∧ noneComplete squares pre
    ∧ complete squares m t ∧ r = Result (Won m) (lineIndices t).
Proof.
  intros Hsome.
  destruct (first_complete_or_none squares ls)
    as [(pre & t & post & m & -> & Hpre & Ht)|Hno].
  - exists pre, t, post, m. split_and!; try done.
    rewrite (scanLines_first _ _ _ _ m) in Hsome by done. congruence.
  - by rewrite scanLines_none in Hsome.
Qed.

Lemma calculateWinner_None_inv squares :
  calculateWinner squares = None →
  noneComplete squares lines ∧ Null ∈ squares.
Proof.
  unfold calculateWinner, includesNull.
  destruct (scanLines squares lines) as [r|] eqn:E; [done|].
  apply scanLines_None_inv in E. by case_bool_decide.
Qed.

Lemma calculateWinner_Won_first squares m l :
  calculateWinner squares = Some (Result (Won m) l) →
  ∃ pre t post,
    lines = pre ++ t :: post ∧ l = lineIndices t
    ∧ complete squares m t ∧ noneComplete squares pre.
Proof.
  unfold calculateWinner, includesNull.
  destruct (scanLines squares lines) as [r|] eqn:E.
  - apply scanLines_Some_first in E as (pre & t & post & m' & ? & ? & ? & ->).
    intros [= <- <-]. by exists pre, t, post.
  - by case_bool_decide.
Qed.

Lemma calculateWinner_Won_inv squares m l :
  calculateWinner squares = Some (Result (Won m) l) →
  ∃ t, t ∈ lines ∧ l = lineIndices t ∧ complete squares m t.
Proof.
  intros (pre & t & post & Hl & -> & Hc & _)%calculateWinner_Won_first.
  exists t. split; [|done]. rewrite Hl. apply elem_of_app. right. by left.
Qed.

Lemma calculateWinner_Draw_inv squares l :
  calculateWinner squares = Some (Result Draw l) →
  l = [] ∧ noneComplete squares lines ∧ Null ∉ squares.
Proof.
  unfold calculateWinner, includesNull.
  destruct (scanLines squares lines) as [r|] eqn:E.
  - apply scanLines_Some_first in E as (? & ? & ? & ? & _ & _ & _ & ->).
    done.
  - apply scanLines_None_inv in E. case_bool_decide; [done|].
    by intros [= <-].
Qed.

(** X9. Whatever [calculateWinner] returns is justified by the board: a
    win names the first complete line of [lines] and the mark its three
    cells hold; a draw comes with an empty line, no complete line and no
    [null] cell; [null] (here [None]) means that no line is complete and
    some cell is [null]. *)
Theorem calculateWinner_sound (squares : Board) :
  match calculateWinner squares with
  | Some (Result (Won m) l) =>
      ∃ pre t post,
        lines = pre ++ t :: post ∧ l = lineIndices t
        ∧ complete squares m t ∧ noneComplete squares pre
  | Some (Result Draw l) =>
      l = [] ∧ noneComplete squares lines ∧ Null ∉ squares
  | None => noneComplete squares lines ∧ Null ∈ squares
  end.
Proof.
  destruct (calculateWinner squares) as [[[m|] l]|] eqn:E.
  - by apply calculateWinner_Won_first.
  - by apply calculateWinner_Draw_inv.
  - by apply calculateWinner_None_inv.
Qed.

(** While no line is complete, a line completed by placing [mk] is a line
    of [mk]: the evaluator can only report the mark just placed. *)
Lemma placed_mark_wins (b : Board) i mk m l :
  calculateWinner b = None →
  calculateWinner (put b i (Mark mk)) = Some (Result (Won m) l) →
  m = mk.
Proof.
  intros [Hnone _]%calculateWinner_None_inv
         (t & Hin & _ & Hc)%calculateWinner_Won_inv.
  destruct (decide (m = mk)) as [|Hne]; [done|]. exfalso.
  apply (Hnone t m Hin). destruct t as [[a0 b0] c0]. unfold complete in *.
  rewrite !get_put in Hc.
  repeat case_decide; destruct Hc as (? & ? & ?); split_and!;
    done || congruence.
Qed.

(** ** The effect's status text and AI-thinking flag *)

Lemma effect_view r r0 :
  status (applyAll r0 (effect r).1)
  = statusOf (calculateWinner (board r)) (gameMode r) (xIsNext r)
  ∧ aiThinking (applyAll r0 (effect r).1)
    = (if (effect r).2 then true else aiThinking r0).
Proof.
  unfold effect.
  destruct (calculateWinner (board r)) as [[[[]|] l]|];
    destruct (gameMode r), (xIsNext r); done.
Qed.

Lemma viewInvariant_commit (new : State) :
  aiThinking new = false →
  (∀ m l, calculateWinner (board new) = Some (Result (Won m) l) →
          m = lastMover (xIsNext new)) →
  viewInvariant (mkSession (applyAll new (effect new).1)
                   (if (effect new).2 then Some new else None)).
Proof.
  intros Hai Hlast.
  destruct (effect_fields new new) as (Hb & Hx & Hm & _ & _).
  destruct (effect_view new new) as (Hst & Hth).
  split; simpl; rewrite ?Hb, ?Hx, ?Hm; try done.
  - rewrite Hth, Hai. destruct (effect new).2.
    + split; [intros _; by eexists|done].
    + split; [done|by intros [? ?]].
  - intros Hsome. destruct (effect new).2 eqn:E; [|by destruct Hsome].
    by apply effect_scheduled in E as (? & ? & _).
Qed.

Lemma viewInvariant_mount : viewInvariant mount.
Proof.
  split; [ reflexivity | split; [done|by intros [? ?]] | by intros [? ?]
         | intros m l; by vm_compute ].
Qed.

Section ViewPreservation.
Variable s : Session.
Hypothesis Hinv : invariant s.
Hypothesis Hview : viewInvariant s.

Lemma viewInvariant_reset acts v :
  acts = handleRestart ∧ v = gameMode (state s)
  ∨ acts = handleModeChange v →
  viewInvariant (commit s acts).
Proof.
  intros H. rewrite (step_reset s acts v H).
  set (new := mkState emptyBoard true v true "" [] false).
  replace (@None State) with (if (effect new).2 then Some new else None)
    by by rewrite effect_unscheduled.
  by apply viewInvariant_commit.
Qed.

(** A click is accepted only while no timeout is pending and the flag is
    down. *)
Lemma accepted_not_thinking i :
  ¬ rejects (state s) i → aiThinking (state s) = false ∧ timeout s = None.
Proof.
  intros Hacc.
  assert (Hnone : timeout s = None).
  { destruct (timeout s) as [r|] eqn:Hr; [|done]. destruct Hacc.
    right; right. apply (view_pending s Hview). rewrite Hr. by eexists. }
  split; [|done].
  destruct (aiThinking (state s)) eqn:E; [|done].
  apply (view_thinking s Hview) in E. rewrite Hnone in E. by destruct E.
Qed.

Lemma viewInvariant_click i : viewInvariant (step s (Click i)).
Proof.
  destruct (decide (rejects (state s) i)) as [Hrej|Hacc].
  { by rewrite step_click_rejected. }
  rewrite step_click_accepted by done.
  destruct (accepted_not_thinking i Hacc) as [Hai _].
  apply viewInvariant_commit; simpl; [done|].
  intros m l Hwon.
  assert (Hactive : isGameActive (state s) = true).
  { destruct (isGameActive (state s)) eqn:E; [done|].
    by destruct Hacc; left. }
  pose proof (inv_result s Hinv) as Hres.
  destruct (calculateWinner (board (state s))) as [res|] eqn:Hcw.
  { destruct Hres as [Hres _]. congruence. }
  apply (placed_mark_wins _ _ _ _ _ Hcw) in Hwon. subst m.
  by destruct (xIsNext (state s)).
Qed.

Lemma viewInvariant_timeout :
  enabled s TimeoutFires → viewInvariant (step s TimeoutFires).
Proof.
  intros [r Hr].
  destruct (inv_timeout s Hinv r Hr) as (Hm & Hx & _).
  rewrite (step_timeout s r) by done.
  destruct Hview as [Hst Hth Hpe Hla].
  split; simpl;
    [ exact Hst | split; [done|by intros [? ?]] | by intros [? ?] | exact Hla ].
Qed.

Lemma viewInvariant_step e : enabled s e → viewInvariant (step s e).
Proof.
  destruct e as [i| |v|]; intros Hen.
  - apply viewInvariant_click.
  - apply (viewInvariant_reset _ (gameMode (state s))). by left.
  - apply (viewInvariant_reset _ v). by right.
  - by apply viewInvariant_timeout.
Qed.

End ViewPreservation.

Lemma reachable_viewInvariant s : reachable s → viewInvariant s.
Proof.
  induction 1 as [|s e Hs IH Hen]; [apply viewInvariant_mount|].
  apply viewInvariant_step; [by apply reachable_invariant|done..].
Qed.

(** ** The status line *)

(** X1. In every reachable session the stored status is the text that the
    effect derives from the current board, mode and turn: it is never
    stale, and never the empty string that [handleRestart] sets.  It
    announces a draw exactly when the evaluator reports one, and Player 1
    as the winner exactly when the evaluator reports a win of X. *)
Theorem status_reflects_game (s : Session) :
  reachable s →
  status (state s)
  = statusOf (calculateWinner (board (state s))) (gameMode (state s))
      (xIsNext (state s))
  ∧ status (state s) ≠ ""
  ∧ (status (state s) = "It's a draw!"
     ↔ ∃ l, calculateWinner (board (state s)) = Some (Result Draw l))
  ∧ (status (state s) = "Winner: Player 1"
     ↔ ∃ l, calculateWinner (board (state s)) = Some (Result (Won MarkX) l)).
Proof.
  intros Hs. rewrite (view_status s (reachable_viewInvariant s Hs)).
  split; [done|].
  destruct (calculateWinner (board (state s))) as [[[[]|] l]|];
    destruct (gameMode (state s)), (xIsNext (state s)); simpl;
    (split; [done|]); split; split;
      solve [ discriminate | by intros (? & [=]) | intros _; by eexists ].
Qed.

Lemma status_reflects_game_witness :
  let s := run mount [Click 0; Click 4; Click 1; Click 7; Click 2] in
  reachable s
  ∧ status (state s) = "Winner: Player 1"
  ∧ status (state s)
    = statusOf (calculateWinner (board (state s))) (gameMode (state s))
        (xIsNext (state s))
  ∧ status (state s) ≠ ""
  ∧ (status (state s) = "It's a draw!"
     ↔ ∃ l, calculateWinner (board (state s)) = Some (Result Draw l))
  ∧ (status (state s) = "Winner: Player 1"
     ↔ ∃ l, calculateWinner (board (state s)) = Some (Result (Won MarkX) l)).
Proof.
  cbv zeta.
  assert (H : reachable
                (run mount [Click 0; Click 4; Click 1; Click 7; Click 2])).
  { apply reachable_run; [apply reachable_mount|]. enabled_events. }
  split; [exact H|]. split; [by vm_compute|].
  exact (status_reflects_game _ H).
Defined.

(** ** The AI-thinking flag *)

(** X2. In every reachable session [aiThinking] is true exactly while a
    timeout is pending, and a timeout is pending only in computer mode, on
    the computer's turn, in an active game without a result. *)
Theorem aiThinking_tracks_timeout (s : Session) :
  reachable s →
  (aiThinking (state s) = true ↔ is_Some (timeout s))
  ∧ (is_Some (timeout s) →
     gameMode (state s) = AI
     ∧ xIsNext (state s) = false
     ∧ isGameActive (state s) = true
     ∧ calculateWinner (board (state s)) = None).
Proof.
  intros Hs.
  pose proof (reachable_invariant s Hs) as Hinv.
  pose proof (reachable_viewInvariant s Hs) as Hview.
  split; [apply (view_thinking s Hview)|].
  intros Hsome. destruct (view_pending s Hview Hsome) as [Hm Hx].
  destruct Hsome as [r Hr].
  destruct (inv_timeout s Hinv r Hr) as (_ & _ & Hb & Hnone).
  rewrite Hb in Hnone. pose proof (inv_result s Hinv) as Hres.
  rewrite Hnone in Hres. by destruct Hres.
Qed.

Lemma aiThinking_tracks_timeout_witness :
  let s := run mount [ModeChange AI; Click 0] in
  reachable s
  ∧ aiThinking (state s) = true
  ∧ (aiThinking (state s) = true ↔ is_Some (timeout s))
  ∧ (is_Some (timeout s) →
     gameMode (state s) = AI
     ∧ xIsNext (state s) = false
     ∧ isGameActive (state s) = true
     ∧ calculateWinner (board (state s)) = None).
Proof.
  cbv zeta.
  assert (H : reachable (run mount [ModeChange AI; Click 0])).
  { apply reachable_run; [apply reachable_mount|]. enabled_events. }
  split; [exact H|]. split; [by vm_compute|].
  exact (aiThinking_tracks_timeout _ H).
Defined.

(** ** Resets do not depend on the past *)

(** X3. A mode change leads to the same session whatever the session
    before it; a restart is a mode change to the current mode; restarting twice
    is restarting once; and restarting the freshly mounted component
    changes nothing. *)
Theorem reset_forgets_history (s : Session) (v : mode) :
  step s (ModeChange v) = step mount (ModeChange v)
  ∧ step s Restart = step mount (ModeChange (gameMode (state s)))
  ∧ step (step s Restart) Restart = step s Restart
  ∧ step (step s (ModeChange v)) Restart = step s (ModeChange v)
  ∧ step mount Restart = mount.
Proof.
  assert (Hmode : ∀ s' v', step s' (ModeChange v')
                           = step mount (ModeChange v')).
  { intros s' v'. simpl.
    rewrite (step_reset s' (handleModeChange v') v') by by right.
    by rewrite (step_reset mount (handleModeChange v') v') by by right. }
  assert (Hrestart : ∀ s', step s' Restart
                           = step mount (ModeChange (gameMode (state s')))).
  { intros s'. simpl.
    rewrite (step_reset s' handleRestart (gameMode (state s'))) by by left.
    by rewrite (step_reset mount (handleModeChange _) (gameMode (state s')))
      by by right. }
  split_and!; [done..| | |by vm_compute].
  - rewrite (Hrestart (step s Restart)).
    destruct (restart_isReset s) as [_ ->]. symmetry. apply Hrestart.
  - rewrite (Hrestart (step s (ModeChange v))).
    destruct (modeChange_isReset s v) as [_ ->]. symmetry. apply Hmode.
Qed.

(** ** The end of a game *)

(** X4. In every reachable session the game is inactive exactly when the
    evaluator reports a result for the board; from then on no timeout is
    pending and no click changes anything: only a restart or a mode change
    leads on. *)
Theorem game_over_is_final (s : Session) :
  reachable s →
  (isGameActive (state s) = false
   ↔ calculateWinner (board (state s)) ≠ None)
  ∧ (isGameActive (state s) = false →
     timeout s = None
     ∧ (∀ i, step s (Click i) = s)
     ∧ step s TimeoutFires = s).
Proof.
  intros Hs. pose proof (reachable_invariant s Hs) as Hinv.
  pose proof (inv_result s Hinv) as Hres. split.
  - destruct (calculateWinner (board (state s))); destruct Hres as [-> _];
      split; done.
  - intros Hover.
    assert (Hnone : timeout s = None).
    { destruct (timeout s) as [r|] eqn:Hr; [|done].
      destruct (inv_timeout s Hinv r Hr) as (_ & _ & Hb & Hcw).
      rewrite Hb in Hcw. rewrite Hcw in Hres. destruct Hres. congruence. }
    split_and!; [done| |].
    + intros i. apply step_click_rejected. by left.
    + simpl. by rewrite Hnone.
Qed.

Lemma game_over_is_final_witness :
  let s := run mount [Click 0; Click 1; Click 2; Click 4; Click 3;
                      Click 5; Click 7; Click 6; Click 8] in
  reachable s
  ∧ isGameActive (state s) = false
  ∧ (isGameActive (state s) = false
     ↔ calculateWinner (board (state s)) ≠ None)
  ∧ (isGameActive (state s) = false →
     timeout s = None
     ∧ (∀ i, step s (Click i) = s)
     ∧ step s TimeoutFires = s).
Proof.
  cbv zeta.
  assert (H : reachable
                (run mount [Click 0; Click 1; Click 2; Click 4; Click 3;
                            Click 5; Click 7; Click 6; Click 8])).
  { apply reachable_run; [apply reachable_mount|]. enabled_events. }
  split; [exact H|]. split; [by vm_compute|].
  exact (game_over_is_final _ H).
Defined.

(** ** Accepted clicks *)

Lemma accepted_click_fields (s : Session) (i : nat) :
  ¬ rejects (state s) i →
  let mover := if xIsNext (state s) then MarkX else MarkO in
  let s' := step s (Click i) in
  board (state s') = put (board (state s)) i (Mark mover)
  ∧ xIsNext (state s') = negb (xIsNext (state s))
  ∧ gameMode (state s') = gameMode (state s)
  ∧ match calculateWinner (board (state s')) with
    | Some res =>
        isGameActive (state s') = false ∧ winnerLine (state s') = line res
    | None => isGameActive (state s') = true ∧ winnerLine (state s') = []
    end
  ∧ status (state s')
    = statusOf (calculateWinner (board (state s'))) (gameMode (state s'))
        (xIsNext (state s')).
Proof.
  intros Hacc mover s'. subst s'.
  assert (Hactive : isGameActive (state s) = true).
  { destruct (isGameActive (state s)) eqn:E; [done|].
    by destruct Hacc; left. }
  rewrite step_click_accepted by done. cbv zeta.
  match goal with |- context [applyAll ?n (effect ?n).1] =>
    destruct (effect_fields n n) as (Hb & Hx & Hm & Hact & Hwl);
    destruct (effect_view n n) as (Hst & _) end.
  simpl state. rewrite Hb, Hx, Hm, Hact, Hwl, Hst. simpl. fold mover.
  split_and!; try done.
  rewrite Hactive. by destruct (calculateWinner _).
Qed.

(** X5. A click that [handleClick] does not reject writes the mover's mark
    (X when [xIsNext], else O) into cell [i] and nowhere else, flips the
    turn and keeps the mode; the effect that follows ends the game exactly
    when the evaluator reports a result for the new board, stores that
    result's line, and refreshes the status. *)
Theorem accepted_click_places_mark (s : Session) (i : nat) :
  ¬ rejects (state s) i →
  let mover := if xIsNext (state s) then MarkX else MarkO in
  let s' := step s (Click i) in
  board (state s') = put (board (state s)) i (Mark mover)
  ∧ get (board (state s')) i = Mark mover
  ∧ (∀ j, j ≠ i → get (board (state s')) j = get (board (state s)) j)
  ∧ xIsNext (state s') = negb (xIsNext (state s))
  ∧ gameMode (state s') = gameMode (state s)
  ∧ match calculateWinner (board (state s')) with
    | Some res =>
        isGameActive (state s') = false ∧ winnerLine (state s') = line res
    | None => isGameActive (state s') = true ∧ winnerLine (state s') = []
    end
  ∧ status (state s')
    = statusOf (calculateWinner (board (state s'))) (gameMode (state s'))
        (xIsNext (state s')).
Proof.
  intros Hacc mover s'.
  destruct (accepted_click_fields s i Hacc) as (Hb & Hx & Hm & Hres & Hst).
  fold mover s' in Hb, Hx, Hm, Hres, Hst.
  split_and!; try done.
  - rewrite Hb, get_put. by case_decide.
  - intros j Hj. rewrite Hb, get_put. by case_decide.
Qed.

Lemma accepted_click_places_mark_witness :
  ¬ rejects (state mount) 4
  ∧ board (state (step mount (Click 4))) = [__;__;__; __;x;__; __;__;__]
  ∧ let mover := if xIsNext (state mount) then MarkX else MarkO in
    let s' := step mount (Click 4) in
    board (state s') = put (board (state mount)) 4 (Mark mover)
    ∧ get (board (state s')) 4 = Mark mover
    ∧ (∀ j, j ≠ 4 → get (board (state s')) j = get (board (state mount)) j)
    ∧ xIsNext (state s') = negb (xIsNext (state mount))
    ∧ gameMode (state s') = gameMode (state mount)
    ∧ match calculateWinner (board (state s')) with
      | Some res =>
          isGameActive (state s') = false ∧ winnerLine (state s') = line res
      | None => isGameActive (state s') = true ∧ winnerLine (state s') = []
      end
    ∧ status (state s')
      = statusOf (calculateWinner (board (state s'))) (gameMode (state s'))
          (xIsNext (state s')).
Proof.
  assert (H : ¬ rejects (state mount) 4).
  { intros [?|[?|[? _]]]; discriminate. }
  split; [exact H|]. split; [by vm_compute|].
  exact (accepted_click_places_mark mount 4 H).
Defined.



(** ** Who wins, and how a draw looks *)

Lemma countMark_total (b : Board) :
  Forall (λ c, c ≠ Undefined) b → Null ∉ b →
  countMark MarkX b + countMark MarkO b = length b.
Proof.
  induction 1 as [|c b Hc _ IH]; intros Hnull; [done|].
  rewrite !countMark_cons. simpl.
  rewrite <- IH by (intros ?; apply Hnull; by right).
  destruct c as [| |[]]; repeat case_decide; try done; try lia.
  destruct Hnull. by left.
Qed.

(** X7. In every reachable session a reported winner is the player who
    moved last: X has won only when it is O's turn and X is one mark ahead, O
    only when it is X's turn and the counts are equal. *)
Theorem winner_moved_last (s : Session) (m : mark) (l : list nat) :
  reachable s →
  calculateWinner (board (state s)) = Some (Result (Won m) l) →
  m = lastMover (xIsNext (state s))
  ∧ (m = MarkX →
     xIsNext (state s) = false
     ∧ countMark MarkX (board (state s))
       = countMark MarkO (board (state s)) + 1)
  ∧ (m = MarkO →
     xIsNext (state s) = true
     ∧ countMark MarkX (board (state s))
       = countMark MarkO (board (state s))).
Proof.
  intros Hs Hwon.
  pose proof (view_last s (reachable_viewInvariant s Hs) m l Hwon) as Hm.
  pose proof (inv_count s (reachable_invariant s Hs)) as Hc.
  split; [done|]. unfold lastMover in Hm.
  destruct (xIsNext (state s)); subst m.
  - split; [done|]. intros _. split; [done|lia].
  - split; [|done]. intros _. split; [done|lia].
Qed.

Lemma winner_moved_last_witness :
  let s := run mount [Click 0; Click 4; Click 1; Click 7; Click 2] in
  reachable s
  ∧ calculateWinner (board (state s)) = Some (Result (Won MarkX) [0; 1; 2])
  ∧ MarkX = lastMover (xIsNext (state s))
  ∧ (MarkX = MarkX →
     xIsNext (state s) = false
     ∧ countMark MarkX (board (state s))
       = countMark MarkO (board (state s)) + 1)
  ∧ (MarkX = MarkO →
     xIsNext (state s) = true
     ∧ countMark MarkX (board (state s))
       = countMark MarkO (board (state s))).
Proof.
  cbv zeta.
  assert (H : reachable
                (run mount [Click 0; Click 4; Click 1; Click 7; Click 2])).
  { apply reachable_run; [apply reachable_mount|]. enabled_events. }
  assert (Hw : calculateWinner
                 (board (state (run mount [Click 0; Click 4; Click 1;
                                           Click 7; Click 2])))
               = Some (Result (Won MarkX) [0; 1; 2])) by by vm_compute.
  split; [exact H|]. split; [exact Hw|].
  exact (winner_moved_last _ _ _ H Hw).
Defined.

(** X8. In every reachable session a draw is a full board with five X and
    four O, reached by X's move. *)
Theorem draw_is_five_to_four (s : Session) (l : list nat) :
  reachable s →
  calculateWinner (board (state s)) = Some (Result Draw l) →
  countMark MarkX (board (state s)) = 5
  ∧ countMark MarkO (board (state s)) = 4
  ∧ xIsNext (state s) = false.
Proof.
  intros Hs Hdraw. pose proof (reachable_invariant s Hs) as Hinv.
  destruct (inv_wf s Hinv) as [Hlen Hall].
  destruct (calculateWinner_Draw_inv _ _ Hdraw) as (_ & _ & Hfull).
  pose proof (countMark_total _ Hall Hfull) as Htotal.
  pose proof (inv_count s Hinv) as Hc.
  rewrite Hlen in Htotal.
  destruct (xIsNext (state s)); [lia|].
  split_and!; [lia|lia|done].
Qed.

Lemma draw_is_five_to_four_witness :
  let s := run mount [Click 0; Click 1; Click 2; Click 4; Click 3;
                      Click 5; Click 7; Click 6; Click 8] in
  reachable s
  ∧ calculateWinner (board (state s)) = Some (Result Draw [])
  ∧ countMark MarkX (board (state s)) = 5
  ∧ countMark MarkO (board (state s)) = 4
  ∧ xIsNext (state s) = false.
Proof.
  cbv zeta.
  assert (H : reachable
                (run mount [Click 0; Click 1; Click 2; Click 4; Click 3;
                            Click 5; Click 7; Click 6; Click 8])).
  { apply reachable_run; [apply reachable_mount|]. enabled_events. }
  assert (Hd : calculateWinner
                 (board (state (run mount [Click 0; Click 1; Click 2;
                                           Click 4; Click 3; Click 5;
                                           Click 7; Click 6; Click 8])))
               = Some (Result Draw [])) by by vm_compute.
  split; [exact H|]. split; [exact Hd|].
  exact (draw_is_five_to_four _ _ H Hd).
Defined.

(** ** The rendered board *)

Lemma Square_className value ev h :
  (className (Square value ev h) = "ttt-square highlight" ↔ h = true)
  ∧ (h = false → className (Square value ev h) = "ttt-square").
Proof. by destruct h. Qed.

Lemma Square_ariaLabel value ev h :
  value ≠ Undefined →
  (ariaLabel (Square value ev h) = "Empty Square" ↔ value = Null)
  ∧ (∀ m, ariaLabel (Square value ev h) = "Square " +:+ markText m
          ↔ value = Mark m).
Proof.
  intros Hdef. destruct value as [| |[]]; try done; simpl; split;
    try done; intros []; done.
Qed.

Lemma renderBoard_lookup r idx c :
  board r !! idx = Some c → c ≠ Undefined →
  renderBoard r !! idx
  = Some (Some (Square c (Click idx) (bool_decide (idx ∈ winnerLine r)))).
Proof.
  intros Hc Hdef. unfold renderBoard.
  rewrite list_lookup_imap, Hc. simpl. by destruct c.
Qed.

(** X10. In every reachable session [renderBoard] yields nine squares.
    Square [idx] shows the content of cell [idx], is labelled after it, and raises
    the click on [idx], which the page can then produce.  It is highlighted
    exactly when the evaluator reports a win whose line contains [idx], and
    a highlighted square shows the winner's mark. *)
Theorem renderBoard_shows_board (s : Session) :
  reachable s →
  length (renderBoard (state s)) = 9
  ∧ ∀ idx, idx < 9 →
      ∃ sq, renderBoard (state s) !! idx = Some (Some sq)
        ∧ children sq = get (board (state s)) idx
        ∧ onClick sq = Click idx
        ∧ enabled s (onClick sq)
        ∧ (ariaLabel sq = "Empty Square"
           ↔ get (board (state s)) idx = Null)
        ∧ (∀ m, ariaLabel sq = "Square " +:+ markText m
                ↔ get (board (state s)) idx = Mark m)
        ∧ (className sq = "ttt-square highlight"
           ↔ ∃ m l, calculateWinner (board (state s))
                    = Some (Result (Won m) l)
                    ∧ idx ∈ l ∧ children sq = Mark m)
        ∧ (className sq ≠ "ttt-square highlight" →
           className sq = "ttt-square").
Proof.
  intros Hs. pose proof (reachable_invariant s Hs) as Hinv.
  destruct (inv_wf s Hinv) as [Hlen Hall]. split.
  { unfold renderBoard. by rewrite length_imap. }
  intros idx Hidx.
  destruct (wfBoard_get _ idx (inv_wf s Hinv) Hidx) as [Hget Hdef].
  eexists. split; [by apply renderBoard_lookup|].
  set (h := bool_decide (idx ∈ winnerLine (state s))).
  destruct (Square_className (get (board (state s)) idx) (Click idx) h)
    as [Hcls Hplain].
  destruct (Square_ariaLabel (get (board (state s)) idx) (Click idx) h Hdef)
    as [Hempty Hmark].
  split_and!; try done.
  - rewrite Hcls. unfold h. rewrite bool_decide_eq_true.
    pose proof (inv_result s Hinv) as Hres. split.
    + intros Hin.
      destruct (calculateWinner (board (state s))) as [[[m|] l]|] eqn:Hcw.
      * destruct Hres as [_ Hwl]. simpl in Hwl. rewrite Hwl in Hin.
        exists m, l. split; [done|]. split; [done|].
        apply calculateWinner_Won_inv in Hcw
          as ([[a b] c] & _ & -> & Ha & Hb & Hc).
        simpl in *.
        repeat (apply elem_of_cons in Hin as [->|Hin]; [done|]).
        by apply elem_of_nil in Hin.
      * destruct Hres as [_ Hwl]. simpl in Hwl.
        rewrite (calculateWinner_Draw _ _ Hcw) in Hwl.
        rewrite Hwl in Hin. by apply elem_of_nil in Hin.
      * destruct Hres as [_ Hwl]. rewrite Hwl in Hin.
        by apply elem_of_nil in Hin.
    + intros (m & l & Hcw & Hin & _). rewrite Hcw in Hres.
      destruct Hres as [_ ->]. done.
  - intros Hno. apply Hplain. destruct h; [|done]. by destruct Hno; apply Hcls.
Qed.

Lemma renderBoard_shows_board_witness :
  let s := run mount [Click 0; Click 4; Click 1; Click 7; Click 2] in
  reachable s
  ∧ renderBoard (state s) !! 1
    = Some (Some (mkButton "ttt-square highlight" (Click 1) "Square X" x))
  ∧ renderBoard (state s) !! 3
    = Some (Some (mkButton "ttt-square" (Click 3) "Empty Square" __))
  ∧ length (renderBoard (state s)) = 9
  ∧ ∀ idx, idx < 9 →
      ∃ sq, renderBoard (state s) !! idx = Some (Some sq)
        ∧ children sq = get (board (state s)) idx
        ∧ onClick sq = Click idx
        ∧ enabled s (onClick sq)
        ∧ (ariaLabel sq = "Empty Square"
           ↔ get (board (state s)) idx = Null)
        ∧ (∀ m, ariaLabel sq = "Square " +:+ markText m
                ↔ get (board (state s)) idx = Mark m)
        ∧ (className sq = "ttt-square highlight"
           ↔ ∃ m l, calculateWinner (board (state s))
                    = Some (Result (Won m) l)
                    ∧ idx ∈ l ∧ children sq = Mark m)
        ∧ (className sq ≠ "ttt-square highlight" →
           className sq = "ttt-square").
Proof.
  cbv zeta.
  assert (H : reachable
                (run mount [Click 0; Click 4; Click 1; Click 7; Click 2])).
  { apply reachable_run; [apply reachable_mount|]. enabled_events. }
  split; [exact H|]. split; [by vm_compute|]. split; [by vm_compute|].
  exact (renderBoard_shows_board _ H).
Defined.

(** ** The mode *)

Lemma applyAll_gameMode r acts :
  forallb (λ a, negb (isSetGameMode a)) acts = true →
  gameMode (applyAll r acts) = gameMode r.
Proof.
  revert r. induction acts as [|a acts IH]; intros r; simpl; [done|].
  intros [Ha Hacts]%andb_true_iff. unfold applyAll in *. rewrite IH by done.
  by destruct a.
Qed.

Lemma commit_gameMode s acts :
  gameMode (state (commit s acts)) = gameMode (applyAll (state s) acts).
Proof.
  unfold commit. destruct (depsChanged _ _ _); [|done].
  destruct (effect (applyAll (state s) acts)) as [acts' sched] eqn:E.
  simpl.
  destruct (effect_fields (applyAll (state s) acts) (applyAll (state s) acts))
    as (_ & _ & Hm & _).
  by rewrite E in Hm.
Qed.

Lemma handleClick_no_mode r i :
  forallb (λ a, negb (isSetGameMode a)) (handleClick r i) = true.
Proof. unfold handleClick. by destruct (_ || _). Qed.

(** X11. Only the mode selector changes the mode: after a mode change the
    mode is the selected one, and a click, a restart or a timeout leaves
    it as it was, in every session. *)
Theorem mode_changes_only_on_request (s : Session) (e : event) :
  gameMode (state (step s e))
  = match e with
    | ModeChange v => v
    | _ => gameMode (state s)
    end.
Proof.
  destruct e as [i| |v|]; simpl.
  - rewrite commit_gameMode. apply applyAll_gameMode, handleClick_no_mode.
  - by rewrite commit_gameMode.
  - by rewrite commit_gameMode.
  - destruct (timeout s) as [r|]; [|done].
    rewrite commit_gameMode. simpl. apply applyAll_gameMode.
    unfold timeoutCallback. rewrite forallb_app.
    destruct (findBestMove (board r)); [|done].
    by rewrite handleClick_no_mode.
Qed.

(** ** The pending computer move *)

(** X12. Whenever a timeout is pending in a reachable session, the board
    its callback closes over is the current board and [findBestMove]
    returns a move for it, never [null]: an index 0..8 of a cell that is
    empty. *)
Theorem pending_timeout_has_move (s : Session) (r : State) :
  reachable s →
  timeout s = Some r →
  board r = board (state s)
  ∧ ∃ move, findBestMove (board r) = Some move
            ∧ move < 9
            ∧ board (state s) !! move = Some Null.
Proof.
  intros Hs Hr. pose proof (reachable_invariant s Hs) as Hinv.
  destruct (inv_timeout s Hinv r Hr) as (_ & _ & Hb & Hnone).
  split; [done|]. rewrite Hb in *.
  apply calculateWinner_None_inv in Hnone as [_ Hnull].
  pose proof (inv_wf s Hinv) as Hwf.
  destruct (findBestMove (board (state s))) as [move|] eqn:E.
  - exists move. apply findBestMove_Some in E as [Hi HE].
    split; [done|]. split; [done|]. by apply wfBoard_isEmpty.
  - apply findBestMove_None, wfBoard_full in E; done.
Qed.

Lemma pending_timeout_has_move_witness :
  let s := run mount [ModeChange AI; Click 0] in
  let r := mkState [x;__;__; __;__;__; __;__;__] false AI true
             "Your turn (X)" [] false in
  reachable s
  ∧ timeout s = Some r
  ∧ board r = board (state s)
  ∧ ∃ move, findBestMove (board r) = Some move
            ∧ move < 9
            ∧ board (state s) !! move = Some Null.
Proof.
  cbv zeta.
  assert (H : reachable (run mount [ModeChange AI; Click 0])).
  { apply reachable_run; [apply reachable_mount|]. enabled_events. }
  assert (Ht : timeout (run mount [ModeChange AI; Click 0])
               = Some (mkState [x;__;__; __;__;__; __;__;__] false AI true
                         "Your turn (X)" [] false)) by by vm_compute.
  split; [exact H|]. split; [exact Ht|].
  exact (pending_timeout_has_move _ _ H Ht).
Defined.
